(** * Ingestion pipeline of philippine-law-mcp: fetcher, parser, census and
    orchestrator (scripts/lib/fetcher.ts, scripts/census.ts, scripts/ingest.ts).

    JavaScript strings are sequences of UTF-16 code units; they are modelled
    as [list N].  The regular expressions of the sources are modelled by a
    backtracking matcher with the ECMAScript semantics (leftmost match,
    greedy and lazy quantifiers, ordered alternation, capture groups). *)

From Stdlib Require Import List Bool Arith NArith ZArith String Ascii Lia.
From Stdlib Require Import DecimalPos DecimalN DecimalString Permutation Sorted.
Import ListNotations.
Open Scope list_scope.

(** ** JavaScript strings *)

Definition jschar := N.
Definition jsstr := list jschar.

(** String literals of the sources, written with ASCII characters. *)
Fixpoint lit (s : string) : jsstr :=
  match s with
  | EmptyString => []
  | String a s' => N_of_ascii a :: lit s'
  end.

Definition NL : jschar := 10%N.
Definition MDASH : jschar := 8212%N.   (* U+2014 *)
Definition NDASH : jschar := 8211%N.   (* U+2013 *)
Definition LSQUO : jschar := 8216%N.   (* U+2018 *)
Definition RSQUO : jschar := 8217%N.   (* U+2019 *)
Definition LDQUO : jschar := 8220%N.   (* U+201C *)
Definition RDQUO : jschar := 8221%N.   (* U+201D *)
Definition DQUOTE : jschar := 34%N.    (* the ASCII double quote *)
Definition ZWSP : jschar := 8203%N.    (* U+200B *)

(** ECMAScript WhiteSpace and LineTerminator code units: the class [\s]
    and the characters removed by [String.prototype.trim]. *)
Definition is_space (c : jschar) : bool :=
  existsb (N.eqb c)
    [9; 10; 11; 12; 13; 32; 160; 5760; 8232; 8233; 8239; 8287; 12288; 65279]%N
  || ((8192 <=? c)%N && (c <=? 8202)%N).

Definition is_line_terminator (c : jschar) : bool :=
  existsb (N.eqb c) [10; 13; 8232; 8233]%N.

Definition is_word_char (c : jschar) : bool :=
  (((48 <=? c) && (c <=? 57)) || ((65 <=? c) && (c <=? 90))
  || ((97 <=? c) && (c <=? 122)) || (c =? 95))%N.

(** Case mapping on the ASCII letters.  The sources only lower-case section
    designations, headings and definition terms, and the [i] flag of a
    non-unicode RegExp never maps a non-ASCII unit to an ASCII one. *)
Definition to_upper_c (c : jschar) : jschar :=
  if ((97 <=? c) && (c <=? 122))%N then (c - 32)%N else c.
Definition to_lower_c (c : jschar) : jschar :=
  if ((65 <=? c) && (c <=? 90))%N then (c + 32)%N else c.

Definition toLowerCase (s : jsstr) : jsstr := map to_lower_c s.
Definition toUpperCase (s : jsstr) : jsstr := map to_upper_c s.

(** [String.prototype.substring(a, b)] with [a <= b], indices clamped. *)
Definition substring (s : jsstr) (a b : nat) : jsstr :=
  firstn (b - a) (skipn a s).

Fixpoint drop_while (p : jschar -> bool) (s : jsstr) : jsstr :=
  match s with
  | [] => []
  | c :: t => if p c then drop_while p t else s
  end.

Definition trim (s : jsstr) : jsstr :=
  rev (drop_while is_space (rev (drop_while is_space s))).

Fixpoint prefixb (p s : jsstr) : bool :=
  match p, s with
  | [], _ => true
  | a :: p', b :: s' => N.eqb a b && prefixb p' s'
  | _ :: _, [] => false
  end.

(** [String.prototype.includes]. *)
Fixpoint includes (s p : jsstr) : bool :=
  prefixb p s || match s with [] => false | _ :: t => includes t p end.

Definition jsstr_eqb (a b : jsstr) : bool :=
  if list_eq_dec N.eq_dec a b then true else false.

(** ** Regular expressions *)

Inductive regex : Type :=
| REmpty
| RChr (c : jschar)
| RCls (neg : bool) (ranges : list (jschar * jschar))
| RSeq (a b : regex)
| RAlt (a b : regex)
| RStar (greedy : bool) (a : regex)
| RGrp (n : nat) (a : regex)
| RBol
| REol
| RWordB.

Record flags := { icase : bool; multiline : bool }.

(** A matcher state: position, the code unit before it, and the rest. *)
Record mstate := { pos : nat; prev : option jschar; rest : jsstr }.

Definition caps := list (nat * (nat * nat)).

Definition advance (s : mstate) : mstate :=
  match rest s with
  | [] => s
  | c :: t => {| pos := S (pos s); prev := Some c; rest := t |}
  end.

Definition in_ranges (c : jschar) (rs : list (jschar * jschar)) : bool :=
  existsb (fun r => (fst r <=? c)%N && (c <=? snd r)%N) rs.

Definition cls_match (f : flags) (neg : bool) (rs : list (jschar * jschar))
  (c : jschar) : bool :=
  let hit := if icase f
             then in_ranges c rs || in_ranges (to_upper_c c) rs
                  || in_ranges (to_lower_c c) rs
             else in_ranges c rs in
  xorb neg hit.

Definition chr_match (f : flags) (c x : jschar) : bool :=
  if icase f then N.eqb (to_upper_c c) (to_upper_c x) else N.eqb c x.

Definition at_bol (f : flags) (s : mstate) : bool :=
  match prev s with
  | None => true
  | Some p => multiline f && is_line_terminator p
  end.

Definition at_eol (f : flags) (s : mstate) : bool :=
  match rest s with
  | [] => true
  | c :: _ => multiline f && is_line_terminator c
  end.

Definition at_word_boundary (s : mstate) : bool :=
  let a := match prev s with Some p => is_word_char p | None => false end in
  let b := match rest s with c :: _ => is_word_char c | [] => false end in
  xorb a b.

Definition mresult := option (nat * caps).

(** The loop of a star: [m] matches one iteration.  An iteration that
    consumes nothing fails, as in the RepeatMatcher of ECMAScript. *)
Fixpoint star_loop (m : mstate -> caps -> (mstate -> caps -> mresult) -> mresult)
  (greedy : bool) (k : mstate -> caps -> mresult) (fuel : nat) (s : mstate)
  (cp : caps) : mresult :=
  match fuel with
  | O => None
  | S fuel' =>
      let once := fun _ : unit =>
        m s cp (fun s1 c1 =>
          if Nat.eqb (pos s1) (pos s) then None else star_loop m greedy k fuel' s1 c1) in
      if greedy then
        match once tt with Some v => Some v | None => k s cp end
      else
        match k s cp with Some v => Some v | None => once tt end
  end.

(** The continuation-passing backtracking matcher.  The fuel of a star loop
    is one more than the characters left and every iteration consumes one,
    so it is never exhausted.  None of the patterns below has a capture
    group under a quantifier, so captures are never reset between
    iterations. *)
Fixpoint mt (f : flags) (r : regex) (s : mstate) (cp : caps)
  (k : mstate -> caps -> mresult) {struct r} : mresult :=
  match r with
  | REmpty => k s cp
  | RChr c =>
      match rest s with
      | x :: _ => if chr_match f c x then k (advance s) cp else None
      | [] => None
      end
  | RCls neg rs =>
      match rest s with
      | x :: _ => if cls_match f neg rs x then k (advance s) cp else None
      | [] => None
      end
  | RSeq a b => mt f a s cp (fun s1 c1 => mt f b s1 c1 k)
  | RAlt a b =>
      match mt f a s cp k with
      | Some v => Some v
      | None => mt f b s cp k
      end
  | RStar g a => star_loop (mt f a) g k (S (List.length (rest s))) s cp
  | RGrp n a => mt f a s cp (fun s1 c1 => k s1 ((n, (pos s, pos s1)) :: c1))
  | RBol => if at_bol f s then k s cp else None
  | REol => if at_eol f s then k s cp else None
  | RWordB => if at_word_boundary s then k s cp else None
  end.

(** Derived forms. *)
Definition RPlus (a : regex) : regex := RSeq a (RStar true a).
Definition ROpt (a : regex) : regex := RAlt a REmpty.
Fixpoint RStr (s : jsstr) : regex :=
  match s with
  | [] => REmpty
  | c :: t => RSeq (RChr c) (RStr t)
  end.
Definition RLit (s : string) : regex := RStr (lit s).
Definition RAny : regex := RCls true [].                      (* [\s\S] *)
Definition c_space : list (jschar * jschar) :=
  [(9, 13); (32, 32); (160, 160); (5760, 5760); (8192, 8202); (8232, 8233);
   (8239, 8239); (8287, 8287); (12288, 12288); (65279, 65279)]%N.
Definition RSpace : regex := RCls false c_space.               (* \s *)
Definition RDigit : regex := RCls false [(48, 57)%N].          (* \d *)
Definition RNot (c : jschar) : regex := RCls true [(c, c)].    (* [^c] *)
Definition rng (a b : ascii) : jschar * jschar := (N_of_ascii a, N_of_ascii b).
Definition one (a : ascii) : jschar * jschar := (N_of_ascii a, N_of_ascii a).
Fixpoint RSeqs (l : list regex) : regex :=
  match l with
  | [] => REmpty
  | [r] => r
  | r :: t => RSeq r (RSeqs t)
  end.
Fixpoint RAlts (l : list regex) : regex :=
  match l with
  | [] => RCls false []
  | [r] => r
  | r :: t => RAlt r (RAlts t)
  end.

(** A compiled RegExp: pattern and flags. *)
Record jsregexp := { re_pat : regex; re_flags : flags }.

Record rmatch := { m_index : nat; m_end : nat; m_caps : caps }.

Definition try_at (re : jsregexp) (s : mstate) : mresult :=
  mt (re_flags re) (re_pat re) s [] (fun s1 c1 => Some (pos s1, c1)).

Fixpoint search_from (re : jsregexp) (p : nat) (pv : option jschar) (l : jsstr)
  : option rmatch :=
  match try_at re {| pos := p; prev := pv; rest := l |} with
  | Some (e, c) => Some {| m_index := p; m_end := e; m_caps := c |}
  | None =>
      match l with
      | [] => None
      | x :: t => search_from re (S p) (Some x) t
      end
  end.

(** [RegExpBuiltinExec] from [lastIndex]. *)
Definition exec_at (re : jsregexp) (input : jsstr) (lastIndex : nat)
  : option rmatch :=
  if Nat.ltb (List.length input) lastIndex then None
  else
    let pv := match lastIndex with
              | O => None
              | S i => nth_error input i
              end in
    search_from re lastIndex pv (skipn lastIndex input).

(** Capture group [n] of a match, [None] when it did not participate. *)
Definition group (input : jsstr) (m : rmatch) (n : nat) : option jsstr :=
  match find (fun e => Nat.eqb (fst e) n) (m_caps m) with
  | Some (_, (a, b)) => Some (substring input a b)
  | None => None
  end.

Definition group_or_empty (input : jsstr) (m : rmatch) (n : nat) : jsstr :=
  match group input m n with Some g => g | None => [] end.

Definition match0 (input : jsstr) (m : rmatch) : jsstr :=
  substring input (m_index m) (m_end m).

(** [while ((m = re.exec(s)) !== null) ...] on a global RegExp.  The loop
    stops when a match is empty; the patterns used with it always consume
    at least one code unit. *)
Fixpoint exec_all_fuel (fuel : nat) (re : jsregexp) (input : jsstr)
  (lastIndex : nat) : list rmatch :=
  match fuel with
  | O => []
  | S fuel' =>
      match exec_at re input lastIndex with
      | None => []
      | Some m =>
          if Nat.eqb (m_end m) (m_index m) then [m]
          else m :: exec_all_fuel fuel' re input (m_end m)
      end
  end.

Definition exec_all (re : jsregexp) (input : jsstr) : list rmatch :=
  exec_all_fuel (S (List.length input)) re input 0.

(** [s.match(re)] for a non-global RegExp. *)
Definition str_match (re : jsregexp) (input : jsstr) : option rmatch :=
  exec_at re input 0.

(** [s.replace(re, repl)] for a global RegExp and a replacement string
    without [$] patterns. *)
Fixpoint replace_fuel (fuel : nat) (re : jsregexp) (input : jsstr)
  (repl : jsstr) (from lastIndex : nat) : jsstr :=
  match fuel with
  | O => skipn from input
  | S fuel' =>
      match exec_at re input lastIndex with
      | None => skipn from input
      | Some m =>
          substring input from (m_index m) ++ repl ++
          replace_fuel fuel' re input repl (m_end m)
            (if Nat.eqb (m_end m) (m_index m) then S (m_end m) else m_end m)
      end
  end.

Definition replace_all (re : jsregexp) (repl : jsstr) (input : jsstr) : jsstr :=
  replace_fuel (S (S (List.length input))) re input repl 0 0.

(** [s.split(re)[0] ?? ''] for a separator that never matches the empty
    string: the text before the first match. *)
Definition split_first (re : jsregexp) (input : jsstr) : jsstr :=
  match exec_at re input 0 with
  | Some m => if Nat.ltb (m_index m) (List.length input)
              then firstn (m_index m) input else input
  | None => input
  end.

Definition gflags : flags := {| icase := false; multiline := false |}.
Definition giflags : flags := {| icase := true; multiline := false |}.
Definition gmflags : flags := {| icase := false; multiline := true |}.
Definition mk (r : regex) (f : flags) : jsregexp := {| re_pat := r; re_flags := f |}.

(** [s.replace(re, repl)] for a non-global RegExp: first match only. *)
Definition replace_first (re : jsregexp) (repl : jsstr) (input : jsstr) : jsstr :=
  match exec_at re input 0 with
  | None => input
  | Some m => firstn (m_index m) input ++ repl ++ skipn (m_end m) input
  end.

(** ** scripts/lib/fetcher.ts: the parser *)

Module ParserRegex.

(** [/<br\s*\/?>/gi] *)
Definition br : jsregexp :=
  mk (RSeqs [RLit "<br"; RStar true RSpace; ROpt (RLit "/"); RLit ">"]) giflags.
(** [/<\/p>/gi] *)
Definition close_p : jsregexp := mk (RLit "</p>") giflags.
(** [/<[^>]+>/g] *)
Definition tag : jsregexp :=
  mk (RSeqs [RLit "<"; RPlus (RNot (N_of_ascii ">")); RLit ">"]) gflags.
Definition entity (e : string) : jsregexp := mk (RLit e) gflags.
(** [/​/g] *)
Definition zwsp : jsregexp := mk (RChr ZWSP) gflags.
(** [/[ \t]+/g] *)
Definition blanks : jsregexp := mk (RPlus (RCls false [one " "; (9, 9)%N])) gflags.
(** [/\n\s*\n/g] *)
Definition blank_lines : jsregexp :=
  mk (RSeqs [RChr NL; RStar true RSpace; RChr NL]) gflags.
(** [/^\s+|\s+$/gm] *)
Definition line_edges : jsregexp :=
  mk (RAlt (RSeq RBol (RPlus RSpace)) (RSeq (RPlus RSpace) REol)) gmflags.

(** The section boundary pattern [sectionPattern] (flags gi). *)
Definition designation (n : nat) : regex :=
  RGrp n (RSeq (RPlus RDigit) (RStar true (RCls false [rng "A" "Z"; rng "a" "z"]))).
Definition sectionPattern : jsregexp :=
  mk (RSeqs
    [RAlt RBol (RChr NL);
     RStar true RSpace;
     RStar true (RSeqs [RLit "<"; RStar true (RNot (N_of_ascii ">")); RLit ">";
                        RStar true RSpace]);
     RAlt
       (RSeqs [RAlts [RLit "Section"; RLit "Sec."; RLit "SEC."; RLit "SECTION"];
               RPlus RSpace; designation 1; ROpt (RLit "."); RStar true RSpace])
       (RSeqs [RAlts [RLit "Article"; RLit "Art."; RLit "ART."; RLit "ARTICLE"];
               RPlus RSpace; designation 2; ROpt (RLit "."); RStar true RSpace])])
    giflags.

(** The chapter heading pattern [chapterPattern] (flags gi). *)
Definition chapterPattern : jsregexp :=
  mk (RSeqs
    [RStar true (RSeqs [RLit "<"; RStar true (RNot (N_of_ascii ">")); RLit ">";
                        RStar true RSpace]);
     RGrp 1 (RAlt (RLit "CHAPTER") (RLit "TITLE"));
     RPlus RSpace;
     RGrp 2 (RAlt (RPlus (RCls false (map one ["I"; "V"; "X"; "L"; "C"; "D"; "M"]%char)))
                  (RPlus (RCls false [rng "0" "9"])));
     RWordB;
     RStar false RAny;
     RAlt (RChr NL) (RSeqs [RLit "<br"; RStar true (RNot (N_of_ascii ">")); RLit ">"])])
    giflags.

(** [/<body[^>]*>([\s\S]*?)<\/body>/i] *)
Definition bodyPattern : jsregexp :=
  mk (RSeqs [RLit "<body"; RStar true (RNot (N_of_ascii ">")); RLit ">";
             RGrp 1 (RStar false RAny); RLit "</body>"])
    giflags.

(** [/\n|<br/i] and [/\n/] *)
Definition line_or_br : jsregexp := mk (RAlt (RChr NL) (RLit "<br")) giflags.
Definition newline : jsregexp := mk (RChr NL) gflags.

(** [/^([^.]+)\./] *)
Definition titlePattern : jsregexp :=
  mk (RSeqs [RBol; RGrp 1 (RPlus (RNot (N_of_ascii "."))); RLit "."]) gflags.
(** [/^\s*[-–—]\s*/] *)
Definition leading_dash : jsregexp :=
  mk (RSeqs [RBol; RStar true RSpace;
             RCls false [one "-"; (NDASH, NDASH); (MDASH, MDASH)];
             RStar true RSpace]) gflags.
(** [/^[-.\s]+/] *)
Definition leading_punct : jsregexp :=
  mk (RSeq RBol (RPlus (RCls false ([one "-"; one "."] ++ c_space)))) gflags.

(** The definition pattern [defPattern] (flags gi). *)
Definition defPattern : jsregexp :=
  mk (RSeqs
    [ROpt (RSeqs [RLit "("; RPlus (RCls false [rng "a" "z"; rng "0" "9"]); RLit ")";
                  RStar true RSpace]);
     RCls false [(DQUOTE, DQUOTE); (LDQUO, LDQUO)];
     RGrp 1 (RPlus (RCls true [(DQUOTE, DQUOTE); (RDQUO, RDQUO)]));
     RCls false [(DQUOTE, DQUOTE); (RDQUO, RDQUO)];
     RStar true RSpace;
     RAlts [RLit "refers to"; RLit "means"; RLit "shall mean"; RLit "shall refer to";
            RLit "includes"; RLit "has the meaning"; RLit "is"; RLit "are"];
     RPlus RSpace;
     RGrp 2 (RSeq (RPlus (RNot (N_of_ascii ";"))) (RCls false [one ";"; one "."]))])
    giflags.

(** [/[;.]$/] *)
Definition final_punct : jsregexp :=
  mk (RSeq (RCls false [one ";"; one "."]) REol) gflags.

End ParserRegex.

Import ParserRegex.

(** [stripHtml] of fetcher.ts. *)
Definition stripHtml (html : jsstr) : jsstr :=
  let r := fun re repl s => replace_all re repl s in
  trim
   (r line_edges []
   (r blank_lines [NL]
   (r blanks (lit " ")
   (r zwsp []
   (r (entity "&rdquo;") [RDQUO]
   (r (entity "&ldquo;") [LDQUO]
   (r (entity "&lsquo;") [LSQUO]
   (r (entity "&rsquo;") [RSQUO]
   (r (entity "&ndash;") [NDASH]
   (r (entity "&mdash;") [MDASH]
   (r (entity "&#39;") (lit "'")
   (r (entity "&quot;") [DQUOTE]
   (r (entity "&gt;") (lit ">")
   (r (entity "&lt;") (lit "<")
   (r (entity "&amp;") (lit "&")
   (r (entity "&#160;") (lit " ")
   (r (entity "&#xA0;") (lit " ")
   (r (entity "&nbsp;") (lit " ")
   (r tag (lit " ")
   (r close_p [NL]
   (r br [NL] html))))))))))))))))))))).

(** *** Data model of the parser *)

Inductive act_status := in_force | amended | repealed | not_yet_in_force.

Module ActIndexEntry.
Record t := mk {
  id : jsstr; title : jsstr; titleEn : jsstr; shortName : jsstr;
  status : act_status; issuedDate : jsstr; inForceDate : jsstr; url : jsstr;
  description : option jsstr }.
End ActIndexEntry.

Module ParsedProvision.
Record t := mk {
  provision_ref : jsstr; chapter : option jsstr; section : jsstr;
  title : jsstr; content : jsstr }.
End ParsedProvision.

Module ParsedDefinition.
Record t := mk {
  term : jsstr; definition : jsstr; source_provision : option jsstr }.
End ParsedDefinition.

(** The [type] field is always ['statute']. *)
Module ParsedAct.
Record t := mk {
  id : jsstr; title : jsstr; title_en : jsstr; short_name : jsstr;
  status : act_status; issued_date : jsstr; in_force_date : jsstr; url : jsstr;
  description : option jsstr;
  provisions : list ParsedProvision.t;
  definitions : list ParsedDefinition.t }.
End ParsedAct.

Module SectionStart.
Record t := mk { index : nat; sectionNum : jsstr; matchLength : nat }.
End SectionStart.

Module Chapter.
Record t := mk { index : nat; name : jsstr }.
End Chapter.

(** *** JavaScript [Map] keyed by strings: insertion-ordered, [set] on a
    present key replaces the value in place. *)

Definition jsmap (V : Type) := list (jsstr * V).

Fixpoint map_get {V} (k : jsstr) (m : jsmap V) : option V :=
  match m with
  | [] => None
  | (k', v) :: t => if jsstr_eqb k k' then Some v else map_get k t
  end.

Fixpoint map_set {V} (k : jsstr) (v : V) (m : jsmap V) : jsmap V :=
  match m with
  | [] => [(k, v)]
  | (k', v') :: t => if jsstr_eqb k k' then (k', v) :: t else (k', v') :: map_set k v t
  end.

Definition map_values {V} (m : jsmap V) : list V := List.map snd m.

(** [for (const x of xs) { const e = m.get(key(x));
     if (!e || size(x) > size(e)) m.set(key(x), x); }] *)
Definition keep_longest_step {V} (key : V -> jsstr) (size : V -> nat)
  (m : jsmap V) (x : V) : jsmap V :=
  match map_get (key x) m with
  | None => map_set (key x) x m
  | Some e => if Nat.ltb (size e) (size x) then map_set (key x) x m else m
  end.

Definition keep_longest {V} (key : V -> jsstr) (size : V -> nat) (xs : list V)
  : jsmap V :=
  fold_left (keep_longest_step key size) xs [].

(** *** [extractDefinitions] *)

Definition definition_of_match (text sourceProvision : jsstr) (m : rmatch)
  : option ParsedDefinition.t :=
  let term := trim (group_or_empty text m 1) in
  let definition := trim (replace_first final_punct [] (group_or_empty text m 2)) in
  if Nat.ltb 0 (List.length term) && Nat.ltb (List.length term) 100
     && Nat.ltb 5 (List.length definition)
  then Some (ParsedDefinition.mk term (substring definition 0 4000)
               (Some sourceProvision))
  else None.

(** Returns the array [definitions] after the pushes. *)
Definition extractDefinitions (text sourceProvision : jsstr)
  (definitions : list ParsedDefinition.t) : list ParsedDefinition.t :=
  definitions ++
  flat_map (fun m => match definition_of_match text sourceProvision m with
                     | Some d => [d] | None => [] end)
           (exec_all defPattern text).

(** *** [parsePhilippineHtml] *)

Definition bodyHtml_of (html : jsstr) : jsstr :=
  match str_match bodyPattern html with
  | Some m => group_or_empty html m 1
  | None => html
  end.

Definition section_start_of (body : jsstr) (m : rmatch) : list SectionStart.t :=
  let sectionNum :=
    trim (match group body m 1 with
          | Some g => g
          | None => match group body m 2 with Some g => g | None => [] end
          end) in
  match sectionNum with
  | [] => []
  | _ => [SectionStart.mk (m_index m) sectionNum (List.length (match0 body m))]
  end.

Definition sectionStarts_of (body : jsstr) : list SectionStart.t :=
  flat_map (section_start_of body) (exec_all sectionPattern body).

Definition chapter_of (body : jsstr) (m : rmatch) : Chapter.t :=
  let e := m_index m + List.length (match0 body m) in
  let afterChapter := substring body e (Nat.min (e + 300) (List.length body)) in
  let titleLine := trim (stripHtml (split_first line_or_br afterChapter)) in
  let chapterLabel :=
    toUpperCase (group_or_empty body m 1 ++ lit " " ++ group_or_empty body m 2) in
  let chapterName :=
    match titleLine with
    | [] => chapterLabel
    | _ => chapterLabel ++ lit " - " ++ titleLine
    end in
  Chapter.mk (m_index m) chapterName.

Definition chapters_of (body : jsstr) : list Chapter.t :=
  map (chapter_of body) (exec_all chapterPattern body).

(** The heading derived from the text after the marker. *)
Definition title_of (afterMarker : jsstr) : jsstr :=
  let titleText := stripHtml (split_first newline afterMarker) in
  let title :=
    match str_match titlePattern titleText with
    | Some m => trim (replace_first leading_dash [] (group_or_empty titleText m 1))
    | None => substring (trim (replace_first leading_dash [] titleText)) 0 200
    end in
  trim (replace_first leading_punct [] title).

Definition is_definition_title (title : jsstr) : bool :=
  includes (toLowerCase title) (lit "definition")
  || includes (toLowerCase title) (lit "interpretation")
  || includes (toLowerCase title) (lit "terms").

(** Loop state of the section loop: [currentChapter], [provisions],
    [definitions]. *)
Record scan := { currentChapter : jsstr;
                 provisions : list ParsedProvision.t;
                 definitions : list ParsedDefinition.t }.

(** One iteration of the section loop, for [start] and [nextStart]. *)
Definition section_step (body : jsstr) (chapters : list Chapter.t)
  (st : scan) (start : SectionStart.t) (nextStart : nat) : scan :=
  let chap := fold_left (fun cur (ch : Chapter.t) =>
                if Nat.leb (Chapter.index ch) (SectionStart.index start)
                then Chapter.name ch else cur) chapters (currentChapter st) in
  let sectionHtml := substring body (SectionStart.index start) nextStart in
  let afterMarker := skipn (SectionStart.matchLength start) sectionHtml in
  let title := title_of afterMarker in
  let content := stripHtml sectionHtml in
  let sectionNum := SectionStart.sectionNum start in
  let provisionRef := lit "sec" ++ toLowerCase sectionNum in
  let provisions :=
    if Nat.ltb 10 (List.length content)
    then provisions st ++
         [ParsedProvision.mk provisionRef
            (match chap with [] => None | _ => Some chap end)
            sectionNum title (substring content 0 12000)]
    else provisions st in
  let definitions :=
    if is_definition_title title
    then extractDefinitions content provisionRef (definitions st)
    else definitions st in
  {| currentChapter := chap; provisions := provisions; definitions := definitions |}.

Fixpoint section_loop (body : jsstr) (chapters : list Chapter.t)
  (st : scan) (starts : list SectionStart.t) : scan :=
  match starts with
  | [] => st
  | s :: rest =>
      let nextStart := match rest with
                       | n :: _ => SectionStart.index n
                       | [] => List.length body
                       end in
      section_loop body chapters (section_step body chapters st s nextStart) rest
  end.

Definition dedup_provisions (ps : list ParsedProvision.t) : list ParsedProvision.t :=
  map_values (keep_longest ParsedProvision.provision_ref
                (fun p => List.length (ParsedProvision.content p)) ps).

Definition dedup_definitions (ds : list ParsedDefinition.t) : list ParsedDefinition.t :=
  map_values (keep_longest (fun d => toLowerCase (ParsedDefinition.term d))
                (fun d => List.length (ParsedDefinition.definition d)) ds).

(** The raw (not yet deduplicated) provisions and definitions. *)
Definition raw_scan (html : jsstr) : scan :=
  let body := bodyHtml_of html in
  section_loop body (chapters_of body)
    {| currentChapter := []; provisions := []; definitions := [] |}
    (sectionStarts_of body).

Definition parsePhilippineHtml (html : jsstr) (act : ActIndexEntry.t) : ParsedAct.t :=
  let sc := raw_scan html in
  ParsedAct.mk (ActIndexEntry.id act) (ActIndexEntry.title act)
    (ActIndexEntry.titleEn act) (ActIndexEntry.shortName act)
    (ActIndexEntry.status act) (ActIndexEntry.issuedDate act)
    (ActIndexEntry.inForceDate act) (ActIndexEntry.url act)
    (ActIndexEntry.description act)
    (dedup_provisions (provisions sc))
    (dedup_definitions (definitions sc)).

(** ** The world the scripts run in: clock, fetcher state, files *)

Module FetchResult.
Record t := mk { status : Z; body : jsstr; contentType : jsstr; url : jsstr }.
End FetchResult.

(** What the network does with one request: the time until the response
    (or the failure) and the response itself. *)
Inductive net_outcome :=
| NetResponse (status : Z) (body : jsstr) (contentType : option jsstr) (finalUrl : jsstr)
| NetError (message : jsstr).

Record world := {
  clock : Z;                     (* Date.now() *)
  lastRequestTime : Z;           (* module-level state of fetcher.ts *)
  requests : nat;                (* requests sent so far *)
  ticks : nat;                   (* timers that have fired so far *)
  sources : jsmap jsstr;         (* data/source/<id>.html *)
  seeds : jsmap ParsedAct.t;     (* data/seed/<id>.json *)
  seed_log : list (jsstr * ParsedAct.t)  (* writes to data/seed, in order *)
}.

Inductive result (A : Type) := Ok (a : A) | Throw (e : jsstr).
Arguments Ok {A} a.
Arguments Throw {A} e.

Definition M (A : Type) := world -> result A * world.

Definition ret {A} (a : A) : M A := fun w => (Ok a, w).
Definition bind {A B} (m : M A) (f : A -> M B) : M B :=
  fun w => match m w with
           | (Ok a, w') => f a w'
           | (Throw e, w') => (Throw e, w')
           end.
Definition throw {A} (e : jsstr) : M A := fun w => (Throw e, w).
(** [try { m } catch (e) { h(e) }] *)
Definition try_catch {A} (m : M A) (h : jsstr -> M A) : M A :=
  fun w => match m w with
           | (Ok a, w') => (Ok a, w')
           | (Throw e, w') => h e w'
           end.
Definition get : M world := fun w => (Ok w, w).
Definition modify (f : world -> world) : M unit := fun w => (Ok tt, f w).

Notation "x <- m ;; k" := (bind m (fun x => k)) (at level 61, m at next level, right associativity).
Notation "m ;;; k" := (bind m (fun _ => k)) (at level 61, right associativity).

Definition set_clock (t : Z) (w : world) : world :=
  {| clock := t; lastRequestTime := lastRequestTime w; requests := requests w;
     ticks := ticks w; sources := sources w; seeds := seeds w; seed_log := seed_log w |}.
Definition set_last (t : Z) (w : world) : world :=
  {| clock := clock w; lastRequestTime := t; requests := requests w;
     ticks := ticks w; sources := sources w; seeds := seeds w; seed_log := seed_log w |}.
Definition tick (w : world) : world :=
  {| clock := clock w; lastRequestTime := lastRequestTime w; requests := requests w;
     ticks := S (ticks w); sources := sources w; seeds := seeds w; seed_log := seed_log w |}.
Definition count_request (w : world) : world :=
  {| clock := clock w; lastRequestTime := lastRequestTime w; requests := S (requests w);
     ticks := ticks w; sources := sources w; seeds := seeds w; seed_log := seed_log w |}.
Definition write_source (id html : jsstr) (w : world) : world :=
  {| clock := clock w; lastRequestTime := lastRequestTime w; requests := requests w;
     ticks := ticks w; sources := map_set id html (sources w); seeds := seeds w;
     seed_log := seed_log w |}.
Definition write_seed (id : jsstr) (a : ParsedAct.t) (w : world) : world :=
  {| clock := clock w; lastRequestTime := lastRequestTime w; requests := requests w;
     ticks := ticks w; sources := sources w; seeds := map_set id a (seeds w);
     seed_log := seed_log w ++ [(id, a)] |}.

Section Environment.

(** [net n u]: duration and outcome of the [n]-th request, sent to [u]. *)
Variable net : nat -> jsstr -> Z * net_outcome.
(** [late n]: how long after its delay the [n]-th timer fires. *)
Variable late : nat -> Z.

Definition date_now : M Z := fun w => (Ok (clock w), w).

(** [await new Promise(resolve => setTimeout(resolve, d))] *)
Definition sleep (d : Z) : M unit :=
  fun w => (Ok tt, tick (set_clock (clock w + d + late (ticks w)) w)).

(** [fetch(url, { signal })] with the 30-second abort timer. *)
Definition http_get (url : jsstr) : M net_outcome :=
  fun w =>
    let (d, o) := net (requests w) url in
    let w1 := count_request w in
    if (30000 <=? d)%Z
    then (Ok (NetError (lit "This operation was aborted")),
          set_clock (clock w + 30000) w1)
    else (Ok o, set_clock (clock w + Z.max 0 d) w1).

(** *** scripts/lib/fetcher.ts *)

Definition MIN_DELAY_MS : Z := 500.

Definition rateLimit : M unit :=
  now <- date_now ;;
  w <- get ;;
  let elapsed := (now - lastRequestTime w)%Z in
  (if (elapsed <? MIN_DELAY_MS)%Z then sleep (MIN_DELAY_MS - elapsed) else ret tt) ;;;
  t <- date_now ;;
  modify (set_last t).

Definition backoff (attempt : Z) : Z := 2 ^ (attempt + 1) * 1000.

(** The [for (let attempt = 0; attempt <= maxRetries; attempt++)] loop. *)
Fixpoint attempts (url : jsstr) (maxRetries : Z) (fuel : nat) (attempt : Z)
  : M FetchResult.t :=
  let failed := throw (lit "Failed to fetch " ++ url) in
  match fuel with
  | O => failed
  | S fuel' =>
      if (attempt <=? maxRetries)%Z then
        o <- http_get url ;;
        match o with
        | NetResponse st b ct u =>
            if ((st =? 429) || (500 <=? st))%Z && (attempt <? maxRetries)%Z
            then sleep (backoff attempt) ;;; attempts url maxRetries fuel' (attempt + 1)
            else ret (FetchResult.mk st b (match ct with Some c => c | None => [] end) u)
        | NetError e =>
            if (attempt <? maxRetries)%Z
            then sleep (backoff attempt) ;;; attempts url maxRetries fuel' (attempt + 1)
            else throw e
        end
      else failed
  end.

Definition fetchWithRateLimit (url : jsstr) (maxRetries : Z) : M FetchResult.t :=
  rateLimit ;;; attempts url maxRetries (Z.to_nat (maxRetries + 1)) 0.

(** *** scripts/ingest.ts *)

Definition createFallbackSeed (act : ActIndexEntry.t) : ParsedAct.t :=
  ParsedAct.mk (ActIndexEntry.id act) (ActIndexEntry.title act)
    (ActIndexEntry.titleEn act) (ActIndexEntry.shortName act)
    (ActIndexEntry.status act) (ActIndexEntry.issuedDate act)
    (ActIndexEntry.inForceDate act) (ActIndexEntry.url act)
    (ActIndexEntry.description act) [] [].

Inductive act_outcome := Cached | Parsed | HttpFallback (status : Z)
                       | FetchFailedFallback | ErrorFallback.

(** The run counters and the per-act report. *)
Record stats := {
  processed : nat; skipped : nat; failed : nat;
  totalProvisions : nat; totalDefinitions : nat;
  results : list (jsstr * nat * nat * act_outcome) }.

Definition stats0 : stats :=
  {| processed := 0; skipped := 0; failed := 0; totalProvisions := 0;
     totalDefinitions := 0; results := [] |}.

Definition record_act (s : stats) (act : ActIndexEntry.t) (np nd : nat)
  (o : act_outcome) (dskipped dfailed dprocessed : nat) : stats :=
  {| processed := processed s + dprocessed; skipped := skipped s + dskipped;
     failed := failed s + dfailed; totalProvisions := totalProvisions s + np;
     totalDefinitions := totalDefinitions s + nd;
     results := results s ++ [(ActIndexEntry.shortName act, np, nd, o)] |}.

Definition fallback (act : ActIndexEntry.t) (o : act_outcome) (s : stats) : M stats :=
  modify (write_seed (ActIndexEntry.id act) (createFallbackSeed act)) ;;;
  ret (record_act s act 0 0 o 0 1 1).

(** The inner [try { await fetchWithRateLimit(act.url) ... } catch]: the
    html to parse, or the counters of an act settled by a fallback seed. *)
Definition fetch_html (act : ActIndexEntry.t) (s : stats) : M (stats + jsstr) :=
  try_catch
    (r <- fetchWithRateLimit (ActIndexEntry.url act) 3 ;;
     if (FetchResult.status r =? 200)%Z
     then modify (write_source (ActIndexEntry.id act) (FetchResult.body r)) ;;;
          ret (inr (FetchResult.body r))
     else s' <- fallback act (HttpFallback (FetchResult.status r)) s ;; ret (inl s'))
    (fun _ => s' <- fallback act FetchFailedFallback s ;; ret (inl s')).

(** [if (fs.existsSync(sourceFile) && skipFetch) ... else ...] *)
Definition obtain_html (act : ActIndexEntry.t) (skipFetch : bool) (s : stats)
  : M (stats + jsstr) :=
  w <- get ;;
  match map_get (ActIndexEntry.id act) (sources w) with
  | Some html => if skipFetch then ret (inr html) else fetch_html act s
  | None => fetch_html act s
  end.

(** One iteration of the loop of [fetchAndParseActs]. *)
Definition process_act (skipFetch : bool) (s : stats) (act : ActIndexEntry.t) : M stats :=
  w <- get ;;
  match (if skipFetch then map_get (ActIndexEntry.id act) (seeds w) else None) with
  | Some existing =>
      let np := List.length (ParsedAct.provisions existing) in
      let nd := List.length (ParsedAct.definitions existing) in
      ret (record_act s act np nd Cached 1 0 1)
  | None =>
      h <- obtain_html act skipFetch s ;;
      match h with
      | inl s' => ret s'
      | inr html =>
          let parsed := parsePhilippineHtml html act in
          modify (write_seed (ActIndexEntry.id act) parsed) ;;;
          ret (record_act s act (List.length (ParsedAct.provisions parsed))
                 (List.length (ParsedAct.definitions parsed)) Parsed 0 0 1)
      end
  end.

Fixpoint process_acts (skipFetch : bool) (s : stats) (acts : list ActIndexEntry.t)
  : M stats :=
  match acts with
  | [] => ret s
  | act :: rest => s' <- process_act skipFetch s act ;; process_acts skipFetch s' rest
  end.

Definition fetchAndParseActs (acts : list ActIndexEntry.t) (skipFetch : bool) : M stats :=
  process_acts skipFetch stats0 acts.

End Environment.

(** [KEY_PHILIPPINE_ACTS] *)
Definition KEY_PHILIPPINE_ACTS : list ActIndexEntry.t := [
  ActIndexEntry.mk (lit "ra-10173-data-privacy-act")
    (lit "Data Privacy Act of 2012")
    (lit "Data Privacy Act of 2012")
    (lit "RA 10173") in_force (lit "2012-08-15") (lit "2012-09-08")
    (lit "https://lawphil.net/statutes/repacts/ra2012/ra_10173_2012.html")
    (Some (lit "Comprehensive data protection law establishing the National Privacy Commission (NPC); protects individual personal information in information and communications systems"));
  ActIndexEntry.mk (lit "ra-10175-cybercrime-prevention")
    (lit "Cybercrime Prevention Act of 2012")
    (lit "Cybercrime Prevention Act of 2012")
    (lit "RA 10175") in_force (lit "2012-09-12") (lit "2012-10-03")
    (lit "https://lawphil.net/statutes/repacts/ra2012/ra_10175_2012.html")
    (Some (lit "Defines and penalises cybercrimes including illegal access, data interference, cybersex, child pornography, identity theft, and online libel"));
  ActIndexEntry.mk (lit "ra-11934-sim-registration")
    (lit "SIM Registration Act")
    (lit "SIM Registration Act")
    (lit "RA 11934") in_force (lit "2022-10-10") (lit "2022-12-27")
    (lit "https://lawphil.net/statutes/repacts/ra2022/ra_11934_2022.html")
    (Some (lit "Requires registration of all SIM cards and social media accounts with telecommunications providers; aimed at deterring crimes committed through mobile phones and the internet"));
  ActIndexEntry.mk (lit "ra-8792-e-commerce")
    (lit "Electronic Commerce Act of 2000")
    (lit "Electronic Commerce Act of 2000")
    (lit "RA 8792") in_force (lit "2000-06-14") (lit "2000-06-14")
    (lit "https://lawphil.net/statutes/repacts/ra2000/ra_8792_2000.html")
    (Some (lit "Provides legal recognition and admissibility of electronic documents, electronic signatures, and electronic commerce transactions"));
  ActIndexEntry.mk (lit "ra-11232-revised-corporation-code")
    (lit "Revised Corporation Code of the Philippines")
    (lit "Revised Corporation Code of the Philippines")
    (lit "RA 11232") in_force (lit "2019-02-20") (lit "2019-02-23")
    (lit "https://lawphil.net/statutes/repacts/ra2019/ra_11232_2019.html")
    (Some (lit "Modernised corporate governance framework; introduces perpetual corporate existence, one-person corporations, and remote board meetings"));
  ActIndexEntry.mk (lit "ra-7394-consumer-act")
    (lit "Consumer Act of the Philippines")
    (lit "Consumer Act of the Philippines")
    (lit "RA 7394") in_force (lit "1992-04-13") (lit "1992-04-13")
    (lit "https://lawphil.net/statutes/repacts/ra1992/ra_7394_1992.html")
    (Some (lit "Comprehensive consumer protection legislation covering product quality, labelling, warranties, price regulation, and consumer redress"));
  ActIndexEntry.mk (lit "constitution-1987")
    (lit "1987 Constitution of the Republic of the Philippines")
    (lit "1987 Constitution of the Republic of the Philippines")
    (lit "1987 Constitution") in_force (lit "1987-02-02") (lit "1987-02-02")
    (lit "https://lawphil.net/consti/cons1987.html")
    (Some (lit "Supreme law of the Philippines; Article III (Bill of Rights) protects privacy of communication and correspondence (Sec. 3), due process (Sec. 1), and freedom of expression (Sec. 4)"));
  ActIndexEntry.mk (lit "act-3815-revised-penal-code")
    (lit "Revised Penal Code")
    (lit "Revised Penal Code")
    (lit "Act No. 3815") in_force (lit "1930-12-08") (lit "1932-01-01")
    (lit "https://lawphil.net/statutes/acts/act1930/act_3815_1930.html")
    (Some (lit "Primary criminal law of the Philippines; covers offences against persons, property, public interest, and public order; Articles relevant to computer fraud and electronic document forgery"));
  ActIndexEntry.mk (lit "ra-8484-access-devices-regulation")
    (lit "Access Devices Regulation Act of 1998")
    (lit "Access Devices Regulation Act of 1998")
    (lit "RA 8484") in_force (lit "1998-02-11") (lit "1998-02-11")
    (lit "https://lawphil.net/statutes/repacts/ra1998/ra_8484_1998.html")
    (Some (lit "Regulates access devices (credit cards, debit cards, account numbers); penalises fraud, counterfeiting, and unauthorised use of access devices"));
  ActIndexEntry.mk (lit "ra-9995-anti-voyeurism")
    (lit "Anti-Photo and Video Voyeurism Act of 2009")
    (lit "Anti-Photo and Video Voyeurism Act of 2009")
    (lit "RA 9995") in_force (lit "2010-02-15") (lit "2010-02-15")
    (lit "https://lawphil.net/statutes/repacts/ra2010/ra_9995_2010.html")
    (Some (lit "Prohibits taking, copying, reproducing, selling, or distributing photos, videos, or recordings of sexual acts without consent; addresses revenge porn and non-consensual intimate images"))].

(** [const acts = limit ? KEY_PHILIPPINE_ACTS.slice(0, limit) : KEY_PHILIPPINE_ACTS]:
    [limit] is [None] for [null] and for a [NaN] parse. *)
Definition js_slice0 {A} (l : list A) (n : Z) : list A :=
  if (0 <=? n)%Z then firstn (Z.to_nat n) l
  else firstn (Nat.max 0 (List.length l - Z.to_nat (- n))) l.

Definition work_list (limit : option Z) : list ActIndexEntry.t :=
  match limit with
  | Some n => if (n =? 0)%Z then KEY_PHILIPPINE_ACTS else js_slice0 KEY_PHILIPPINE_ACTS n
  | None => KEY_PHILIPPINE_ACTS
  end.

(** [main] of ingest.ts. *)
Definition ingest_main (net : nat -> jsstr -> Z * net_outcome) (late : nat -> Z)
  (limit : option Z) (skipFetch : bool) : M stats :=
  fetchAndParseActs net late (work_list limit) skipFetch.

(** ** scripts/census.ts: the corpus enumerator *)

Inductive law_category := republic_act | constitution | act.
Inductive law_classification := ingestable | inaccessible | metadata_only.

Module CensusLaw.
Record t := mk {
  id : jsstr; raNumber : N; year : N; title : jsstr; date : jsstr; url : jsstr;
  category : law_category; classification : law_classification }.
End CensusLaw.

Module CensusRegex.

(** [/<tr[^>]*>\s*<td>\s*<a\s+href="(ra\d{4}\/ra_(\d+)_(\d{4})\.html)"[^>]*>
     Republic Act No\.\s*(\d+)<\/a>\s*<br\s*\/?>\s*([^<]+)<\/td>\s*<td>
     ([\s\S]*?)<\/td>/gi] *)
Definition d4 : regex := RSeqs [RDigit; RDigit; RDigit; RDigit].
Definition rowRe : jsregexp :=
  mk (RSeqs
    [RLit "<tr"; RStar true (RNot (N_of_ascii ">")); RLit ">"; RStar true RSpace;
     RLit "<td>"; RStar true RSpace; RLit "<a"; RPlus RSpace; RSeq (RLit "href=") (RChr DQUOTE);
     RGrp 1 (RSeqs [RLit "ra"; d4; RLit "/ra_"; RGrp 2 (RPlus RDigit); RLit "_";
                    RGrp 3 d4; RLit ".html"]);
     RChr DQUOTE; RStar true (RNot (N_of_ascii ">")); RLit ">";
     RLit "Republic Act No."; RStar true RSpace; RGrp 4 (RPlus RDigit);
     RLit "</a>"; RStar true RSpace; RLit "<br"; RStar true RSpace; ROpt (RLit "/");
     RLit ">"; RStar true RSpace; RGrp 5 (RPlus (RNot (N_of_ascii "<")));
     RLit "</td>"; RStar true RSpace; RLit "<td>"; RGrp 6 (RStar false RAny);
     RLit "</td>"])
    giflags.

(** [/\s+/g] *)
Definition spaces : jsregexp := mk (RPlus RSpace) gflags.

(** [/^(\w+)\s+(\d{1,2}),?\s+(\d{4})$/] *)
Definition RWord : regex := RCls false [rng "A" "Z"; rng "a" "z"; rng "0" "9"; one "_"].
Definition datePattern : jsregexp :=
  mk (RSeqs [RBol; RGrp 1 (RPlus RWord); RPlus RSpace;
             RGrp 2 (RSeq RDigit (ROpt RDigit)); ROpt (RLit ","); RPlus RSpace;
             RGrp 3 d4; REol]) gflags.

End CensusRegex.

Import CensusRegex.

(** [stripHtml] of census.ts. *)
Definition census_stripHtml (html : jsstr) : jsstr :=
  let r := fun re repl s => replace_all re repl s in
  trim
   (r spaces (lit " ")
   (r (entity "&ndash;") [NDASH]
   (r (entity "&mdash;") [MDASH]
   (r (entity "&rdquo;") [RDQUO]
   (r (entity "&ldquo;") [LDQUO]
   (r (entity "&rsquo;") [RSQUO]
   (r (entity "&#39;") (lit "'")
   (r (entity "&quot;") [DQUOTE]
   (r (entity "&gt;") (lit ">")
   (r (entity "&lt;") (lit "<")
   (r (entity "&amp;") (lit "&")
   (r (entity "&nbsp;") (lit " ")
   (r tag (lit " ") html))))))))))))).

(** [parseInt(s, 10)] on a string of ASCII digits. *)
Definition parseInt_digits (s : jsstr) : N :=
  fold_left (fun acc c => (10 * acc + (c - 48))%N) s 0%N.

(** [`${n}`] for a natural number. *)
Definition N_to_jsstr (n : N) : jsstr :=
  lit (NilZero.string_of_uint (N.to_uint n)).

Definition raToId (raNumber : N) : jsstr := lit "ra-" ++ N_to_jsstr raNumber.

(** [parseMonth]: the own properties of the [months] table. *)
Definition parseMonth (month : jsstr) : jsstr :=
  let months :=
    [("january", "01"); ("february", "02"); ("march", "03"); ("april", "04");
     ("may", "05"); ("june", "06"); ("july", "07"); ("august", "08");
     ("september", "09"); ("october", "10"); ("november", "11"); ("december", "12")]%string in
  match find (fun e => jsstr_eqb (lit (fst e)) (toLowerCase month)) months with
  | Some (_, v) => lit v
  | None => lit "01"
  end.

Definition padStart2 (s : jsstr) : jsstr :=
  match s with [c] => lit "0" ++ [c] | _ => s end.

Definition parseDate (dateStr : jsstr) : jsstr :=
  let t := trim dateStr in
  match str_match datePattern t with
  | None => []
  | Some m =>
      group_or_empty t m 3 ++ lit "-" ++ parseMonth (group_or_empty t m 1) ++ lit "-"
      ++ padStart2 (group_or_empty t m 2)
  end.

(** A [CensusLaw] built from a row match of the index page. *)
Definition law_of_row (html : jsstr) (m : rmatch) : CensusLaw.t :=
  let raNumber := parseInt_digits (group_or_empty html m 4) in
  CensusLaw.mk (raToId raNumber) raNumber (parseInt_digits (group_or_empty html m 3))
    (census_stripHtml (group_or_empty html m 6))
    (parseDate (trim (group_or_empty html m 5)))
    (lit "https://lawphil.net/statutes/repacts/" ++ group_or_empty html m 1)
    republic_act ingestable.

(** The loop of [parseIndexPage] over the rows, with the [seen] set. *)
Fixpoint collect_laws (seen : list jsstr) (rows : list CensusLaw.t) : list CensusLaw.t :=
  match rows with
  | [] => []
  | l :: rest =>
      if existsb (jsstr_eqb (CensusLaw.id l)) seen
      then collect_laws seen rest
      else l :: collect_laws (CensusLaw.id l :: seen) rest
  end.

Definition parseIndexPage (html : jsstr) : list CensusLaw.t :=
  collect_laws [] (map (law_of_row html) (exec_all rowRe html)).

Definition constitution_1987 : CensusLaw.t :=
  CensusLaw.mk (lit "constitution-1987") 0 1987
    (lit "1987 Constitution of the Republic of the Philippines") (lit "1987-02-02")
    (lit "https://lawphil.net/consti/cons1987.html") constitution ingestable.

Definition revised_penal_code : CensusLaw.t :=
  CensusLaw.mk (lit "act-3815-revised-penal-code") 0 1930
    (lit "Revised Penal Code (Act No. 3815)") (lit "1930-12-08")
    (lit "https://lawphil.net/statutes/acts/act1930/act_3815_1930.html") act ingestable.

Definition is_ra (l : CensusLaw.t) : bool :=
  match CensusLaw.category l with republic_act => true | _ => false end.

(** The comparator of [laws.sort]. *)
Definition census_cmp (a b : CensusLaw.t) : Z :=
  if negb (is_ra a) && is_ra b then 1%Z
  else if is_ra a && negb (is_ra b) then (-1)%Z
  else (Z.of_N (CensusLaw.raNumber b) - Z.of_N (CensusLaw.raNumber a))%Z.

(** [Array.prototype.sort] is stable: insertion sort, inserting after every
    element that does not compare greater. *)
Fixpoint insert_sorted (x : CensusLaw.t) (l : list CensusLaw.t) : list CensusLaw.t :=
  match l with
  | [] => [x]
  | y :: t => if (0 <? census_cmp y x)%Z then x :: l else y :: insert_sorted x t
  end.

Definition sort_laws (l : list CensusLaw.t) : list CensusLaw.t :=
  fold_left (fun acc x => insert_sorted x acc) l [].

(** The [laws] written to data/census.json by [main] of census.ts, from the
    fetched index page; [None] when the run exits with status 1. *)
Definition census_laws (index : FetchResult.t) : option (list CensusLaw.t) :=
  if (FetchResult.status index =? 200)%Z
  then Some (sort_laws (parseIndexPage (FetchResult.body index)
                        ++ [constitution_1987; revised_penal_code]))
  else None.

(** The [stats] of the [CensusOutput] written by [main] of census.ts. *)
Module CensusStats.
Record t := mk {
  total : nat; class_ingestable : nat; class_inaccessible : nat;
  class_metadata_only : nat; republic_acts : nat; special_entries : nat;
  year_range : jsstr }.
End CensusStats.

Definition classification_eqb (a b : law_classification) : bool :=
  match a, b with
  | ingestable, ingestable | inaccessible, inaccessible
  | metadata_only, metadata_only => true
  | _, _ => false
  end.

(** [laws.filter(l => l.classification === c).length] *)
Definition count_class (c : law_classification) (laws : list CensusLaw.t) : nat :=
  List.length (filter (fun l => classification_eqb (CensusLaw.classification l) c) laws).

(** [years.length > 0 ? Math.min(...years) : 0] and the same with [Math.max]. *)
Definition min_year (years : list N) : N :=
  match years with [] => 0%N | y :: t => fold_left N.min t y end.
Definition max_year (years : list N) : N :=
  match years with [] => 0%N | y :: t => fold_left N.max t y end.

Definition census_years (laws : list CensusLaw.t) : list N :=
  map CensusLaw.year (filter is_ra laws).

Definition census_stats (laws : list CensusLaw.t) : CensusStats.t :=
  let raCount := List.length (filter is_ra laws) in
  let specialCount := List.length (filter (fun l => negb (is_ra l)) laws) in
  let years := census_years laws in
  CensusStats.mk (List.length laws) (count_class ingestable laws)
    (count_class inaccessible laws) (count_class metadata_only laws)
    raCount specialCount
    (N_to_jsstr (min_year years) ++ lit "-" ++ N_to_jsstr (max_year years)).

(** The [stats] and [laws] written to data/census.json. *)
Definition census_main (index : FetchResult.t) : option (CensusStats.t * list CensusLaw.t) :=
  match census_laws index with
  | Some laws => Some (census_stats laws, laws)
  | None => None
  end.

(** *** scripts/ingest.ts: the command line *)

Fixpoint take_while (p : jschar -> bool) (s : jsstr) : jsstr :=
  match s with
  | [] => []
  | c :: t => if p c then c :: take_while p t else []
  end.

Definition is_digit (c : jschar) : bool := ((48 <=? c) && (c <=? 57))%N.

(** [parseInt(s, 10)]: [None] is [NaN].  Leading white space is skipped, an
    optional sign is read, then the longest run of decimal digits. *)
Definition parseInt10 (s : jsstr) : option Z :=
  let s1 := drop_while is_space s in
  let '(sign, s2) :=
    match s1 with
    | c :: t => if N.eqb c (N_of_ascii "-") then ((-1)%Z, t)
                else if N.eqb c (N_of_ascii "+") then (1%Z, t) else (1%Z, s1)
    | [] => (1%Z, s1)
    end in
  match take_while is_digit s2 with
  | [] => None
  | ds => Some (sign * Z.of_N (parseInt_digits ds))%Z
  end.

(** The value of [limit]: [null], [NaN] or a number. *)
Inductive js_limit := LimitNull | LimitNaN | LimitNum (n : Z).

Definition limit_of_parse (r : option Z) : js_limit :=
  match r with Some n => LimitNum n | None => LimitNaN end.

(** The loop of [parseArgs] over [args], from [i]; the value after
    [--limit] is consumed by the [i++]. *)
Fixpoint parseArgs_loop (args : list jsstr) (limit : js_limit) (skipFetch : bool)
  : js_limit * bool :=
  match args with
  | [] => (limit, skipFetch)
  | a :: rest =>
      let other := if jsstr_eqb a (lit "--skip-fetch")
                   then parseArgs_loop rest limit true
                   else parseArgs_loop rest limit skipFetch in
      match rest with
      | v :: rest' =>
          if jsstr_eqb a (lit "--limit") && negb (jsstr_eqb v [])
          then parseArgs_loop rest' (limit_of_parse (parseInt10 v)) skipFetch
          else other
      | [] => other
      end
  end.

Definition parseArgs (args : list jsstr) : js_limit * bool :=
  parseArgs_loop args LimitNull false.

(** [limit ? ... : ...]: [null] and [NaN] are falsy (and [0], handled by
    [work_list]). *)
Definition limit_option (l : js_limit) : option Z :=
  match l with LimitNum n => Some n | _ => None end.

(** [main] of ingest.ts from the command-line arguments. *)
Definition ingest_main_args (net : nat -> jsstr -> Z * net_outcome) (late : nat -> Z)
  (args : list jsstr) : M stats :=
  let '(limit, skipFetch) := parseArgs args in
  ingest_main net late (limit_option limit) skipFetch.

(** ** Inputs and auxiliary notions of the statements *)



Definition sample_act : ActIndexEntry.t :=
  ActIndexEntry.mk (lit "ra-10173") (lit "Data Privacy Act of 2012")
    (lit "Data Privacy Act of 2012") (lit "RA 10173") in_force (lit "2012-08-15")
    (lit "2012-09-08") (lit "https://lawphil.net/statutes/repacts/ra2012/ra_10173_2012.html")
    None.

Definition c5_html : jsstr :=
  lit "Section 1. Scope. Short body." ++ [NL] ++
  lit "Section 1. Scope. A longer body of the same section.".

Definition c6_snippet : jsstr :=
  lit "Section 3. Definition of Terms. " ++ [MDASH] ++
  lit " (a) " ++ [DQUOTE] ++ lit "Personal information" ++ [DQUOTE] ++
  lit " refers to any information...;".

Fixpoint minlen (r : regex) : nat :=
  match r with
  | REmpty | RStar _ _ | RBol | REol | RWordB => 0
  | RChr _ | RCls _ _ => 1
  | RSeq a b => minlen a + minlen b
  | RAlt a b => Nat.min (minlen a) (minlen b)
  | RGrp _ a => minlen a
  end.

(** Every definition of the loop state points at a provision of it. *)
Definition defs_resolve (st : scan) : Prop :=
  forall d, In d (definitions st) ->
  exists p, In p (provisions st) /\
    Some (ParsedProvision.provision_ref p) = ParsedDefinition.source_provision d.

Definition c6_definition : ParsedDefinition.t :=
  hd (ParsedDefinition.mk [] [] None)
     (ParsedAct.definitions (parsePhilippineHtml c6_snippet sample_act)).

(** The start of the next candidate section, or the end of the body. *)
Definition next_start (body : jsstr) (rest : list SectionStart.t) : nat :=
  match rest with
  | n :: _ => SectionStart.index n
  | [] => List.length body
  end.

(** The stripped body of the candidate [s] followed by the candidates [rest]. *)
Definition candidate_text (body : jsstr) (s : SectionStart.t)
  (rest : list SectionStart.t) : jsstr :=
  stripHtml (substring body (SectionStart.index s) (next_start body rest)).

(** [p] comes from a candidate of [starts] whose stripped body passed the
    length filter, and holds that body cut at 12,000 code units. *)
Definition from_long_candidate (body : jsstr) (starts : list SectionStart.t)
  (p : ParsedProvision.t) : Prop :=
  exists pre s rest, starts = pre ++ s :: rest /\
    10 < List.length (candidate_text body s rest) /\
    ParsedProvision.content p = substring (candidate_text body s rest) 0 12000.

Definition c8_provision : ParsedProvision.t :=
  hd (ParsedProvision.mk [] None [] [] [])
     (ParsedAct.provisions (parsePhilippineHtml c5_html sample_act)).


(** An index page listing Republic Act No. 12036 twice, under two years. *)
Definition c7_row (year date title : string) : jsstr :=
  lit "<tr class=" ++ [DQUOTE] ++ lit "row" ++ [DQUOTE] ++ lit "><td><a href=" ++
  [DQUOTE] ++ lit "ra" ++ lit year ++ lit "/ra_12036_" ++ lit year ++ lit ".html" ++
  [DQUOTE] ++ lit ">Republic Act No. 12036</a><br>" ++ lit date ++
  lit "</td><td>" ++ lit title ++ lit "</td></tr>" ++ [NL].

Definition c7_html : jsstr :=
  c7_row "2024" "October 17, 2024" "An Act first listed" ++
  c7_row "2025" "January 6, 2025" "An Act listed again".



(** An endpoint that always answers 503 after 120 ms. *)
Definition always_503 (n : nat) (u : jsstr) : Z * net_outcome :=
  (120%Z, NetResponse 503 (lit "Service Unavailable") (Some (lit "text/html")) u).

Definition empty_world : world :=
  {| clock := 1700000000000; lastRequestTime := 0; requests := 0; ticks := 0;
     sources := []; seeds := []; seed_log := [] |}.

(** [for (const [url, maxRetries] of calls)] sequential calls, each awaited and its failure caught:
    the value of the shared timestamp after each call, that is the time
    [rateLimit] released the call's first request. *)
Fixpoint fetch_calls (net : nat -> jsstr -> Z * net_outcome) (late : nat -> Z)
  (calls : list (jsstr * Z)) : M (list Z) :=
  match calls with
  | [] => ret []
  | (u, maxRetries) :: rest =>
      _ <- try_catch (_ <- fetchWithRateLimit net late u maxRetries ;; ret tt)
                     (fun _ => ret tt) ;;
      w <- get ;;
      ts <- fetch_calls net late rest ;;
      ret (lastRequestTime w :: ts)
  end.

(** Consecutive times at least [d] apart. *)
Fixpoint spaced (d : Z) (ts : list Z) : Prop :=
  match ts with
  | a :: ((b :: _) as t) => (a + d <= b)%Z /\ spaced d t
  | _ => True
  end.

Fixpoint nodupb (l : list jsstr) : bool :=
  match l with
  | [] => true
  | x :: t => negb (existsb (jsstr_eqb x) t) && nodupb t
  end.

(** An index fetched with status 200 whose page is [c7_html]. *)
Definition c1_index : FetchResult.t :=
  FetchResult.mk 200 c7_html (lit "text/html")
    (lit "https://lawphil.net/statutes/repacts/repacts.html").


(** A request that times out or fails in the network. *)
Definition failing (r : Z * net_outcome) : Prop :=
  (30000 <= fst r)%Z \/ exists e, snd r = NetError e.

(** A provision built by the section loop for one of the candidates [all]:
    reference and designation agree, and the chapter, when present, is the
    (non-empty) name of one of the [chapters]. *)
Definition provision_from (all : list SectionStart.t) (chapters : list Chapter.t)
  (p : ParsedProvision.t) : Prop :=
  exists s, In s all /\
    ParsedProvision.section p = SectionStart.sectionNum s /\
    ParsedProvision.provision_ref p = lit "sec" ++ toLowerCase (SectionStart.sectionNum s) /\
    (ParsedProvision.chapter p = None \/
     exists ch, In ch chapters /\ ParsedProvision.chapter p = Some (Chapter.name ch) /\
       Chapter.name ch <> []).

(** The loop variable [currentChapter]: empty, or the name of a chapter. *)
Definition chapter_ok (chapters : list Chapter.t) (c : jsstr) : Prop :=
  c = [] \/ exists ch, In ch chapters /\ c = Chapter.name ch.

(** An endpoint that answers 200 after 80 ms. *)
Definition always_200 (n : nat) (u : jsstr) : Z * net_outcome :=
  (80%Z, NetResponse 200 c5_html None u).

(** An endpoint whose every request fails in the network after 10 ms. *)
Definition always_down (n : nat) (u : jsstr) : Z * net_outcome :=
  (10%Z, NetError (lit "ECONNREFUSED")).

(** A page of ten code units. *)
Definition short_page : jsstr := lit "Sec. 1. Hi".

(** A page with a chapter heading above two sections. *)
Definition chapter_page : jsstr :=
  lit "CHAPTER I" ++ [NL] ++ lit "General Provisions" ++ [NL] ++
  lit "Section 1. Short Title. This Act shall be known as the Test Act." ++ [NL] ++
  lit "Section 2. Definition of Terms. (a) " ++ [DQUOTE] ++ lit "Data" ++ [DQUOTE] ++
  lit " refers to recorded facts;".

Definition chapter_page_provision : ParsedProvision.t :=
  hd (ParsedProvision.mk [] None [] [] [])
     (ParsedAct.provisions (parsePhilippineHtml chapter_page sample_act)).

Definition chapter_page_definition : ParsedDefinition.t :=
  hd (ParsedDefinition.mk [] [] None)
     (ParsedAct.definitions (parsePhilippineHtml chapter_page sample_act)).

(** An index page listing three Republic Acts, out of order. *)
Definition index_row (num year date title : string) : jsstr :=
  lit "<tr class=" ++ [DQUOTE] ++ lit "row" ++ [DQUOTE] ++ lit "><td><a href=" ++
  [DQUOTE] ++ lit "ra" ++ lit year ++ lit "/ra_" ++ lit num ++ lit "_" ++ lit year ++
  lit ".html" ++ [DQUOTE] ++ lit ">Republic Act No. " ++ lit num ++ lit "</a><br>" ++
  lit date ++ lit "</td><td>" ++ lit title ++ lit "</td></tr>" ++ [NL].

Definition index_page : jsstr :=
  index_row "11000" "2018" "March 1, 2018" "An Act of 2018" ++
  index_row "12036" "2024" "October 17, 2024" "An Act of 2024" ++
  index_row "9000" "2001" "June 5, 2001" "An Act of 2001".

Definition index_response : FetchResult.t :=
  FetchResult.mk 200 index_page (lit "text/html") (lit "https://lawphil.net/statutes/repacts/").

Definition index_laws : list CensusLaw.t :=
  match census_laws index_response with Some l => l | None => [] end.

(** The counters of the ingestion report an outcome adds to: [skipped] for a
    cached seed, [failed] for a fallback seed. *)
Definition outcome_cached (o : act_outcome) : nat :=
  match o with Cached => 1 | _ => 0 end.
Definition outcome_failed (o : act_outcome) : nat :=
  match o with HttpFallback _ | FetchFailedFallback | ErrorFallback => 1 | _ => 0 end.

(** The fields of a row of the per-act report. *)
Definition row_act (r : jsstr * nat * nat * act_outcome) : jsstr := fst (fst (fst r)).
Definition row_provisions (r : jsstr * nat * nat * act_outcome) : nat := snd (fst (fst r)).
Definition row_definitions (r : jsstr * nat * nat * act_outcome) : nat := snd (fst r).
Definition row_status (r : jsstr * nat * nat * act_outcome) : act_outcome := snd r.

(** An act with a seed file or a source file in the world [w]. *)
Definition has_cache (w : world) (act : ActIndexEntry.t) : Prop :=
  map_get (ActIndexEntry.id act) (seeds w) <> None \/
  map_get (ActIndexEntry.id act) (sources w) <> None.

(** Timers that fire on time. *)
Definition no_delay (n : nat) : Z := 0.

(** The world after a first fetch of the sample act from [always_200]. *)
Definition ok_fetch_world : world :=
  snd (fetchWithRateLimit always_200 no_delay (ActIndexEntry.url sample_act) 3 empty_world).

Definition ok_fetch : FetchResult.t :=
  FetchResult.mk 200 c5_html [] (ActIndexEntry.url sample_act).

(** A world where the source file of the sample act exists. *)
Definition cached_world : world :=
  {| clock := 1700000000000; lastRequestTime := 0; requests := 0; ticks := 0;
     sources := [(ActIndexEntry.id sample_act, c5_html)]; seeds := []; seed_log := [] |}.

(** The step of [parseInt_digits]. *)
Definition digit_step (acc c : N) : N := (10 * acc + (c - 48))%N.







(** * Proofs *)

(** ** Strings and maps *)

Lemma jsstr_eqb_spec (a b : jsstr) : jsstr_eqb a b = true <-> a = b.
Proof. unfold jsstr_eqb; destruct (list_eq_dec N.eq_dec a b); split; congruence. Qed.

Lemma jsstr_eqb_refl (a : jsstr) : jsstr_eqb a a = true.
Proof. apply jsstr_eqb_spec; reflexivity. Qed.

Lemma jsstr_eqb_neq (a b : jsstr) : a <> b -> jsstr_eqb a b = false.
Proof. intro H; destruct (jsstr_eqb a b) eqn:E; [apply jsstr_eqb_spec in E|]; congruence. Qed.

Lemma jsstr_eqb_sym (a b : jsstr) : jsstr_eqb a b = jsstr_eqb b a.
Proof.
  destruct (list_eq_dec N.eq_dec a b) as [->|H].
  - now rewrite jsstr_eqb_refl.
  - rewrite !jsstr_eqb_neq; auto.
Qed.

Ltac case_str a b :=
  destruct (list_eq_dec N.eq_dec a b) as [<-|?];
  [rewrite ?jsstr_eqb_refl | rewrite ?(jsstr_eqb_neq a b), ?(jsstr_eqb_neq b a) by auto].

Section JsMap.
Context {V : Type}.

Lemma map_get_set (k k' : jsstr) (v : V) (m : jsmap V) :
  map_get k (map_set k' v m) = if jsstr_eqb k k' then Some v else map_get k m.
Proof.
  induction m as [|[k0 v0] t IH]; simpl.
  - reflexivity.
  - case_str k' k0; simpl.
    + destruct (jsstr_eqb k k'); reflexivity.
    + rewrite IH. case_str k k'; [|reflexivity]. now rewrite jsstr_eqb_neq.
Qed.

Lemma map_get_None (k : jsstr) (m : jsmap V) :
  map_get k m = None <-> ~ In k (map fst m).
Proof.
  induction m as [|[k0 v0] t IH]; simpl.
  - tauto.
  - case_str k k0; [split; [discriminate|intro H; exfalso; apply H; now left]|].
    rewrite IH. intuition.
Qed.

Lemma map_set_keys (k : jsstr) (v : V) (m : jsmap V) (x : jsstr) :
  In x (map fst (map_set k v m)) <-> x = k \/ In x (map fst m).
Proof.
  induction m as [|[k0 v0] t IH]; simpl.
  - intuition (subst; auto).
  - case_str k k0; simpl; [intuition (subst; auto)|]. rewrite IH. intuition (subst; auto).
Qed.

Lemma map_set_nodup (k : jsstr) (v : V) (m : jsmap V) :
  NoDup (map fst m) -> NoDup (map fst (map_set k v m)).
Proof.
  induction m as [|[k0 v0] t IH]; simpl; intro H.
  - constructor; [simpl; tauto | constructor].
  - inversion H as [|? ? Hn Ht]; subst.
    case_str k k0; simpl; [assumption|].
    constructor; [|now apply IH].
    rewrite map_set_keys. intuition.
Qed.

Lemma map_set_in (k : jsstr) (v : V) (m : jsmap V) (e : jsstr * V) :
  In e (map_set k v m) -> e = (k, v) \/ In e m.
Proof.
  induction m as [|[k0 v0] t IH]; simpl.
  - intuition.
  - case_str k k0; simpl; intuition.
Qed.

(** Every entry of the map is stored under the key of its value. *)
Definition keyed (key : V -> jsstr) (m : jsmap V) : Prop :=
  Forall (fun e => key (snd e) = fst e) m.

Lemma map_set_keyed (key : V -> jsstr) (x : V) (m : jsmap V) :
  keyed key m -> keyed key (map_set (key x) x m).
Proof.
  unfold keyed. intro H. apply Forall_forall. intros e He.
  apply map_set_in in He as [->|He]; [reflexivity|].
  rewrite Forall_forall in H; auto.
Qed.

Variables (key : V -> jsstr) (size : V -> nat).

Lemma keep_longest_step_inv (m : jsmap V) (x : V) :
  NoDup (map fst m) /\ keyed key m ->
  NoDup (map fst (keep_longest_step key size m x)) /\
  keyed key (keep_longest_step key size m x).
Proof.
  intros [Hn Hk]. unfold keep_longest_step.
  destruct (map_get (key x) m); [destruct (Nat.ltb _ _)|];
    auto using map_set_nodup, map_set_keyed.
Qed.

Lemma keep_longest_fold_inv (xs : list V) (m : jsmap V) :
  NoDup (map fst m) /\ keyed key m ->
  NoDup (map fst (fold_left (keep_longest_step key size) xs m)) /\
  keyed key (fold_left (keep_longest_step key size) xs m).
Proof.
  revert m; induction xs as [|x xs IH]; simpl; auto using keep_longest_step_inv.
Qed.

Lemma keep_longest_inv (xs : list V) :
  NoDup (map fst (keep_longest key size xs)) /\ keyed key (keep_longest key size xs).
Proof.
  apply keep_longest_fold_inv. split; constructor.
Qed.



Lemma keep_longest_fold_values (xs : list V) (m : jsmap V) (v : V) :
  In v (map_values (fold_left (keep_longest_step key size) xs m)) ->
  In v (map_values m) \/ In v xs.
Proof.
  revert m; induction xs as [|x xs IH]; simpl; intros m H; [auto|].
  apply IH in H as [H|H]; [|auto].
  unfold keep_longest_step, map_values in H.
  assert (Hs : forall m', In v (map snd (map_set (key x) x m')) -> v = x \/ In v (map snd m')).
  { intros m' Hv. apply in_map_iff in Hv as [[k' v'] [<- Hin]].
    apply map_set_in in Hin as [[=]|Hin]; [auto|].
    right. apply in_map_iff. now exists (k', v'). }
  destruct (map_get (key x) m); [destruct (Nat.ltb _ _)|];
    try (apply Hs in H as [->|H]); auto.
Qed.

(** Every value kept by [keep_longest] comes from its input. *)
Lemma keep_longest_values_in (xs : list V) (v : V) :
  In v (map_values (keep_longest key size xs)) -> In v xs.
Proof.
  intro H. apply keep_longest_fold_values in H as [[]|H]; auto.
Qed.

(** The selection [keep_longest] performs for one key. *)
Definition best_step (o : option V) (x : V) : option V :=
  match o with
  | None => Some x
  | Some e => if Nat.ltb (size e) (size x) then Some x else Some e
  end.

Lemma keep_longest_fold_get (xs : list V) (m : jsmap V) (k : jsstr) :
  map_get k (fold_left (keep_longest_step key size) xs m) =
  fold_left best_step (filter (fun x => jsstr_eqb (key x) k) xs) (map_get k m).
Proof.
  revert m; induction xs as [|x xs IH]; simpl; intro m; [reflexivity|].
  rewrite IH. unfold keep_longest_step.
  case_str (key x) k; simpl; f_equal.
  - unfold best_step.
    destruct (map_get (key x) m) as [e|] eqn:E;
      [destruct (Nat.ltb (size e) (size x)) eqn:L|];
      rewrite ?map_get_set, ?jsstr_eqb_refl, ?E, ?L; reflexivity.
  - destruct (map_get (key x) m) as [e|];
      [destruct (Nat.ltb (size e) (size x))|];
      rewrite ?map_get_set, ?(jsstr_eqb_neq k (key x)) by congruence; reflexivity.
Qed.

Lemma keyed_filter_values (m : jsmap V) (k : jsstr) :
  NoDup (map fst m) -> keyed key m ->
  filter (fun v => jsstr_eqb (key v) k) (map_values m) =
  match map_get k m with Some v => [v] | None => [] end.
Proof.
  unfold keyed, map_values.
  induction m as [|[k0 v0] t IH]; simpl; intros Hn Hk; [reflexivity|].
  inversion Hn as [|? ? Hni Hnt]; inversion Hk as [|? ? Hk0 Hkt]; subst; simpl in *.
  rewrite Hk0, IH by assumption.
  case_str k k0.
  - destruct (map_get k t) eqn:E; [|reflexivity].
    exfalso. apply (proj2 (map_get_None k t)) in Hni. congruence.
  - reflexivity.
Qed.

(** [best_step] keeps the first of the longest values. *)
Lemma best_fold_first_max (l : list V) :
  l <> [] ->
  exists pre p post, l = pre ++ p :: post /\
    fold_left best_step l None = Some p /\
    Forall (fun q => size q < size p) pre /\
    Forall (fun q => size q <= size p) post.
Proof.
  induction l as [|x l IH] using rev_ind; intro Hne; [congruence|].
  rewrite fold_left_app. cbn [fold_left].
  assert (Hl0 : l = [] \/ l <> []) by (destruct l; [left|right]; congruence).
  destruct Hl0 as [->|Hl0].
  - exists [], x, []. simpl. repeat split; constructor.
  - destruct (IH Hl0) as (pre & p & post & Hl & Hf & Hpre & Hpost).
    rewrite Hf. unfold best_step.
    destruct (Nat.ltb (size p) (size x)) eqn:L.
    + apply Nat.ltb_lt in L.
      exists l, x, []. split; [reflexivity|]. split; [reflexivity|].
      split; [|constructor].
      rewrite Hl. apply Forall_app. split.
      * eapply Forall_impl; [|exact Hpre]. simpl; intros; lia.
      * constructor; [lia|]. eapply Forall_impl; [|exact Hpost]. simpl; intros; lia.
    + apply Nat.ltb_ge in L.
      exists pre, p, (post ++ [x]). rewrite Hl.
      split; [now rewrite <- app_assoc|]. split; [reflexivity|]. split; [assumption|].
      apply Forall_app. split; [assumption|]. constructor; [lia|constructor].
Qed.

(** For one key, the values of [keep_longest] hold exactly the first of the
    longest inputs with that key. *)
Lemma keep_longest_select (xs : list V) (k : jsstr) :
  filter (fun x => jsstr_eqb (key x) k) xs <> [] ->
  exists pre p post,
    filter (fun x => jsstr_eqb (key x) k) xs = pre ++ p :: post /\
    Forall (fun q => size q < size p) pre /\
    Forall (fun q => size q <= size p) post /\
    filter (fun v => jsstr_eqb (key v) k) (map_values (keep_longest key size xs)) = [p].
Proof.
  intro Hne.
  destruct (best_fold_first_max _ Hne) as (pre & p & post & Hl & Hf & Hpre & Hpost).
  exists pre, p, post. repeat split; auto.
  destruct (keep_longest_inv xs) as [Hn Hk].
  rewrite keyed_filter_values by assumption.
  unfold keep_longest. rewrite keep_longest_fold_get. simpl. now rewrite Hf.
Qed.

End JsMap.

(** ** Deduplication in the parser *)

Lemma parse_provisions_eq (html : jsstr) (act : ActIndexEntry.t) :
  ParsedAct.provisions (parsePhilippineHtml html act) =
  dedup_provisions (provisions (raw_scan html)).
Proof. reflexivity. Qed.

Lemma parse_definitions_eq (html : jsstr) (act : ActIndexEntry.t) :
  ParsedAct.definitions (parsePhilippineHtml html act) =
  dedup_definitions (definitions (raw_scan html)).
Proof. reflexivity. Qed.





(** ** The definition-of-terms scenario *)

(** C6: an input holding the definition-of-terms snippet yields a provision
    [sec3] headed "Definition of Terms" and the term "Personal information". *)
Theorem parse_definition_of_terms_scenario :
  exists html, includes html c6_snippet = true /\
  forall act,
    (exists p, In p (ParsedAct.provisions (parsePhilippineHtml html act)) /\
       ParsedProvision.provision_ref p = lit "sec3" /\
       includes (ParsedProvision.title p) (lit "Definition of Terms") = true) /\
    (exists d, In d (ParsedAct.definitions (parsePhilippineHtml html act)) /\
       ParsedDefinition.term d = lit "Personal information").
Proof.
  exists c6_snippet. split; [vm_compute; reflexivity|]. intro act.
  rewrite parse_provisions_eq, parse_definitions_eq. split.
  - assert (H : existsb (fun p => jsstr_eqb (ParsedProvision.provision_ref p) (lit "sec3")
                   && includes (ParsedProvision.title p) (lit "Definition of Terms"))%bool
                  (dedup_provisions (provisions (raw_scan c6_snippet))) = true)
      by (vm_compute; reflexivity).
    apply existsb_exists in H as (p & Hin & Hp).
    apply andb_true_iff in Hp as [Hr Ht]. apply jsstr_eqb_spec in Hr.
    exists p. split; [exact Hin|split; assumption].
  - assert (H : existsb (fun d => jsstr_eqb (ParsedDefinition.term d) (lit "Personal information"))
                  (dedup_definitions (definitions (raw_scan c6_snippet))) = true)
      by (vm_compute; reflexivity).
    apply existsb_exists in H as (d & Hin & Hd). apply jsstr_eqb_spec in Hd.
    exists d. split; assumption.
Qed.

(** ** The matcher consumes at least the minimal length of a pattern *)

Lemma mt_progress (f : flags) (r : regex) :
  forall s cp k res, mt f r s cp k = Some res ->
  exists s' cp', k s' cp' = Some res /\ pos s + minlen r <= pos s'.
Proof.
  induction r as [| c | neg rs | a IHa b IHb | a IHa b IHb | g a IHa | n a IHa | | |];
    intros s cp k res H; cbn [mt minlen] in *.
  - exists s, cp. split; [assumption | lia].
  - destruct (rest s) as [|x t] eqn:E; [discriminate|].
    destruct (chr_match f c x); [|discriminate].
    exists (advance s), cp. split; [assumption|]. unfold advance; rewrite E; simpl; lia.
  - destruct (rest s) as [|x t] eqn:E; [discriminate|].
    destruct (cls_match f neg rs x); [|discriminate].
    exists (advance s), cp. split; [assumption|]. unfold advance; rewrite E; simpl; lia.
  - apply IHa in H as (s1 & c1 & H1 & P1).
    apply IHb in H1 as (s2 & c2 & H2 & P2).
    exists s2, c2. split; [assumption | lia].
  - destruct (mt f a s cp k) as [v|] eqn:E.
    + injection H as <-. apply IHa in E as (s1 & c1 & H1 & P1).
      exists s1, c1. split; [assumption | lia].
    + apply IHb in H as (s1 & c1 & H1 & P1).
      exists s1, c1. split; [assumption | lia].
  - remember (S (List.length (rest s))) as fuel eqn:Ef. clear Ef.
    revert s cp H. induction fuel as [|fuel IHf]; intros s cp H; cbn [star_loop] in H;
      [discriminate|].
    destruct g.
    + destruct (mt f a s cp _) as [v|] eqn:E.
      * injection H as <-. apply IHa in E as (s1 & c1 & H1 & P1).
        destruct (Nat.eqb (pos s1) (pos s)); [discriminate|].
        apply IHf in H1 as (s2 & c2 & H2 & P2).
        exists s2, c2. split; [assumption | lia].
      * exists s, cp. split; [assumption | lia].
    + destruct (k s cp) as [v|] eqn:E.
      * injection H as <-. exists s, cp. split; [assumption | lia].
      * apply IHa in H as (s1 & c1 & H1 & P1).
        destruct (Nat.eqb (pos s1) (pos s)); [discriminate|].
        apply IHf in H1 as (s2 & c2 & H2 & P2).
        exists s2, c2. split; [assumption | lia].
  - apply IHa in H as (s1 & c1 & H1 & P1).
    eexists s1, _. split; [exact H1 | lia].
  - destruct (at_bol f s); [|discriminate]. exists s, cp. split; [assumption | lia].
  - destruct (at_eol f s); [|discriminate]. exists s, cp. split; [assumption | lia].
  - destruct (at_word_boundary s); [|discriminate]. exists s, cp. split; [assumption | lia].
Qed.

(** A sequence that ends with a capture group records the group's span, and
    the span starts after the minimal length of the patterns before it. *)
Lemma mt_seqs_last_group (f : flags) (L : list regex) (n : nat) (b : regex) :
  last L REmpty = RGrp n b ->
  forall s cp k res, mt f (RSeqs L) s cp k = Some res ->
  exists s1 s2 c, k s2 ((n, (pos s1, pos s2)) :: c) = Some res /\
    pos s + list_sum (map minlen (removelast L)) <= pos s1 /\
    pos s1 + minlen b <= pos s2.
Proof.
  induction L as [|a L IH]; intros Hl s cp k res H; [discriminate|].
  destruct L as [|a' L].
  - simpl in Hl. subst a. cbn [RSeqs mt] in H.
    apply mt_progress in H as (s2 & c2 & H2 & P2).
    exists s, s2, c2. simpl. split; [exact H2 | lia].
  - change (RSeqs (a :: a' :: L)) with (RSeq a (RSeqs (a' :: L))) in H.
    cbn [mt] in H. apply mt_progress in H as (s1 & c1 & H1 & P1).
    destruct (IH Hl s1 c1 k res H1) as (s2 & s3 & c & Hk & P2 & P3).
    exists s2, s3, c. change (removelast (a :: a' :: L)) with (a :: removelast (a' :: L)).
    change (list_sum (map minlen (a :: ?r))) with (minlen a + list_sum (map minlen r)).
    split; [exact Hk | lia].
Qed.

Lemma try_at_progress (re : jsregexp) (s : mstate) (e : nat) (c : caps) :
  try_at re s = Some (e, c) -> pos s <= e.
Proof.
  unfold try_at. intro H. apply mt_progress in H as (s' & c' & H & P).
  injection H as <- <-. lia.
Qed.

Lemma search_from_sound (re : jsregexp) (l : jsstr) :
  forall p pv m, search_from re p pv l = Some m ->
  exists s, pos s = m_index m /\ try_at re s = Some (m_end m, m_caps m).
Proof.
  induction l as [|x t IH]; intros p pv m H; simpl in H;
    destruct (try_at re _) as [[e c]|] eqn:E.
  - injection H as <-. eexists. split; [|exact E]. reflexivity.
  - discriminate.
  - injection H as <-. eexists. split; [|exact E]. reflexivity.
  - eapply IH; exact H.
Qed.

Lemma exec_at_sound (re : jsregexp) (input : jsstr) (li : nat) (m : rmatch) :
  exec_at re input li = Some m ->
  exists s, pos s = m_index m /\ try_at re s = Some (m_end m, m_caps m).
Proof.
  unfold exec_at. destruct (Nat.ltb _ _); [discriminate|]. apply search_from_sound.
Qed.

Lemma exec_at_ordered (re : jsregexp) (input : jsstr) (li : nat) (m : rmatch) :
  exec_at re input li = Some m -> m_index m <= m_end m.
Proof.
  intro H. apply exec_at_sound in H as (s & <- & H). eapply try_at_progress; eauto.
Qed.

Lemma exec_all_fuel_sound (re : jsregexp) (input : jsstr) (fuel : nat) :
  forall li m, In m (exec_all_fuel fuel re input li) ->
  exists li', exec_at re input li' = Some m.
Proof.
  induction fuel as [|fuel IH]; intros li m H; simpl in H; [contradiction|].
  destruct (exec_at re input li) as [m'|] eqn:E; [|contradiction].
  destruct (Nat.eqb (m_end m') (m_index m')).
  - destruct H as [<-|[]]. eauto.
  - destruct H as [<-|H]; eauto.
Qed.

Lemma exec_all_sound (re : jsregexp) (input : jsstr) (m : rmatch) :
  In m (exec_all re input) ->
  exists s, pos s = m_index m /\ try_at re s = Some (m_end m, m_caps m).
Proof.
  unfold exec_all. intro H. apply exec_all_fuel_sound in H as (li & H).
  eapply exec_at_sound; eauto.
Qed.

(** Group 2 of [defPattern] starts at least six code units into the match. *)
Lemma defPattern_group2 (s : mstate) (e : nat) (c : caps) :
  try_at defPattern s = Some (e, c) ->
  exists a c', c = (2, (a, e)) :: c' /\ pos s + 6 <= a /\ a + 2 <= e.
Proof.
  unfold try_at. intro H.
  apply (mt_seqs_last_group _ _ 2
    (RSeq (RPlus (RNot (N_of_ascii ";"))) (RCls false [one ";"; one "."]))) in H;
    [|reflexivity].
  destruct H as (s1 & s2 & c' & Hk & P1 & P2).
  injection Hk as <- <-. exists (pos s1), c'. split; [reflexivity|].
  change (list_sum _) with 6 in P1. change (minlen _) with 2 in P2. lia.
Qed.

Lemma drop_while_length (p : jschar -> bool) (s : jsstr) :
  List.length (drop_while p s) <= List.length s.
Proof.
  induction s as [|c t IH]; simpl; [lia|]. destruct (p c); simpl; lia.
Qed.

Lemma trim_length (s : jsstr) : List.length (trim s) <= List.length s.
Proof.
  unfold trim. rewrite length_rev.
  pose proof (drop_while_length is_space (rev (drop_while is_space s))).
  pose proof (drop_while_length is_space s). rewrite length_rev in H. lia.
Qed.

Lemma replace_first_length (re : jsregexp) (input : jsstr) :
  List.length (replace_first re [] input) <= List.length input.
Proof.
  unfold replace_first. destruct (exec_at re input 0) as [m|] eqn:E; [|lia].
  apply exec_at_ordered in E.
  rewrite length_app, length_firstn, length_app, length_skipn. simpl. lia.
Qed.

Lemma substring_length (s : jsstr) (a b : nat) :
  List.length (substring s a b) = Nat.min (b - a) (List.length s - a).
Proof. unfold substring. now rewrite length_firstn, length_skipn. Qed.

(** A definition is only extracted from a text of more than ten code units,
    and it points back at the provision it was extracted for. *)
Lemma definition_of_match_sound (text ref : jsstr) (m : rmatch)
  (d : ParsedDefinition.t) :
  In m (exec_all defPattern text) ->
  definition_of_match text ref m = Some d ->
  ParsedDefinition.source_provision d = Some ref /\ 10 < List.length text.
Proof.
  intros Hm Hd. apply exec_all_sound in Hm as (s & Hp & Ht).
  apply defPattern_group2 in Ht as (a & c' & Hc & P1 & P2).
  unfold definition_of_match in Hd.
  destruct (_ && _ && _) eqn:E; [|discriminate].
  injection Hd as <-. split; [reflexivity|].
  apply andb_true_iff in E as [_ E]. apply Nat.ltb_lt in E.
  pose proof (trim_length (replace_first final_punct [] (group_or_empty text m 2))).
  pose proof (replace_first_length final_punct (group_or_empty text m 2)).
  unfold group_or_empty, group in *. rewrite Hc in *. simpl in *.
  rewrite substring_length in *. lia.
Qed.

Lemma extractDefinitions_in (text ref : jsstr) (ds : list ParsedDefinition.t)
  (d : ParsedDefinition.t) :
  In d (extractDefinitions text ref ds) ->
  In d ds \/ (ParsedDefinition.source_provision d = Some ref /\ 10 < List.length text).
Proof.
  unfold extractDefinitions. intro H. apply in_app_or in H as [H|H]; [auto|right].
  apply in_flat_map in H as (m & Hm & Hd).
  destruct (definition_of_match text ref m) as [d'|] eqn:E; [|contradiction].
  destruct Hd as [<-|[]]. eapply definition_of_match_sound; eauto.
Qed.

Lemma section_step_provisions (body : jsstr) (chapters : list Chapter.t) (st : scan)
  (start : SectionStart.t) (nextStart : nat) :
  exists np,
    ParsedProvision.provision_ref np = lit "sec" ++ toLowerCase (SectionStart.sectionNum start) /\
    ParsedProvision.content np =
      substring (stripHtml (substring body (SectionStart.index start) nextStart)) 0 12000 /\
    provisions (section_step body chapters st start nextStart) =
    if Nat.ltb 10 (List.length (stripHtml (substring body (SectionStart.index start) nextStart)))
    then provisions st ++ [np] else provisions st.
Proof. eexists. split; [|split; [|reflexivity]]; reflexivity. Qed.
Lemma section_step_definitions (body : jsstr) (chapters : list Chapter.t) (st : scan)
  (start : SectionStart.t) (nextStart : nat) :
  exists isdef : bool,
    definitions (section_step body chapters st start nextStart) =
    if isdef
    then extractDefinitions (stripHtml (substring body (SectionStart.index start) nextStart))
           (lit "sec" ++ toLowerCase (SectionStart.sectionNum start)) (definitions st)
    else definitions st.
Proof. eexists. reflexivity. Qed.

Lemma section_step_resolve (body : jsstr) (chapters : list Chapter.t) (st : scan)
  (start : SectionStart.t) (nextStart : nat) :
  defs_resolve st -> defs_resolve (section_step body chapters st start nextStart).
Proof.
  intros H d Hd.
  destruct (section_step_provisions body chapters st start nextStart) as (np & Hr & _ & ->).
  destruct (section_step_definitions body chapters st start nextStart) as (b & Hds).
  rewrite Hds in Hd. clear Hds.
  assert (Hold : In d (definitions st) ->
    exists p, In p (if Nat.ltb 10 (List.length (stripHtml
                          (substring body (SectionStart.index start) nextStart)))
                    then provisions st ++ [np] else provisions st) /\
      Some (ParsedProvision.provision_ref p) = ParsedDefinition.source_provision d).
  { intro Hd'. destruct (H d Hd') as (p & Hp & Hr'). exists p. split; [|exact Hr'].
    destruct (Nat.ltb _ _); [apply in_or_app; left|]; exact Hp. }
  destruct b; [|exact (Hold Hd)].
  apply extractDefinitions_in in Hd as [Hd|[Hs Hl]]; [exact (Hold Hd)|].
  rewrite <- Nat.ltb_lt in Hl. rewrite Hl.
  exists np. split; [apply in_or_app; right; left; reflexivity|].
  rewrite Hs, Hr. reflexivity.
Qed.

Lemma section_loop_resolve (body : jsstr) (chapters : list Chapter.t)
  (starts : list SectionStart.t) :
  forall st, defs_resolve st -> defs_resolve (section_loop body chapters st starts).
Proof.
  induction starts as [|s t IH]; intros st H; simpl; [exact H|].
  apply IH, section_step_resolve, H.
Qed.

Lemma raw_scan_resolve (html : jsstr) : defs_resolve (raw_scan html).
Proof.
  apply section_loop_resolve. intros d [].
Qed.

(** C10: every definition of a parsed record points at a provision of the
    same record: no definition refers to a section dropped by the length
    filter or by deduplication. *)
Theorem parse_definitions_resolve (html : jsstr) (act : ActIndexEntry.t)
  (d : ParsedDefinition.t) :
  In d (ParsedAct.definitions (parsePhilippineHtml html act)) ->
  exists p, In p (ParsedAct.provisions (parsePhilippineHtml html act)) /\
    Some (ParsedProvision.provision_ref p) = ParsedDefinition.source_provision d.
Proof.
  rewrite parse_definitions_eq, parse_provisions_eq. intro Hd.
  apply keep_longest_values_in in Hd.
  destruct (raw_scan_resolve html d Hd) as (p & Hp & Hr).
  destruct (keep_longest_select ParsedProvision.provision_ref
              (fun p => List.length (ParsedProvision.content p))
              (provisions (raw_scan html)) (ParsedProvision.provision_ref p))
    as (pre & p' & post & _ & _ & _ & Hsel).
  { intro He. assert (Hin : In p (filter (fun x => jsstr_eqb
        (ParsedProvision.provision_ref x) (ParsedProvision.provision_ref p))
        (provisions (raw_scan html)))) by (apply filter_In; auto using jsstr_eqb_refl).
    rewrite He in Hin. contradiction. }
  assert (Hin : In p' [p']) by (left; reflexivity).
  rewrite <- Hsel in Hin. apply filter_In in Hin as [Hin He].
  apply jsstr_eqb_spec in He. exists p'. split; [exact Hin|]. now rewrite He.
Qed.

Lemma parse_definitions_resolve_witness :
  In c6_definition (ParsedAct.definitions (parsePhilippineHtml c6_snippet sample_act)) /\
  exists p, In p (ParsedAct.provisions (parsePhilippineHtml c6_snippet sample_act)) /\
    Some (ParsedProvision.provision_ref p) = ParsedDefinition.source_provision c6_definition.
Proof.
  assert (H : In c6_definition
                (ParsedAct.definitions (parsePhilippineHtml c6_snippet sample_act)))
    by (vm_compute; left; reflexivity).
  split; [exact H | exact (parse_definitions_resolve c6_snippet sample_act c6_definition H)].
Defined.

(** ** Bounds on the provisions *)

Lemma section_loop_long (body : jsstr) (chapters : list Chapter.t)
  (starts : list SectionStart.t) :
  forall pre st,
  (forall p, In p (provisions st) -> from_long_candidate body (pre ++ starts) p) ->
  forall p, In p (provisions (section_loop body chapters st starts)) ->
  from_long_candidate body (pre ++ starts) p.
Proof.
  induction starts as [|s rest IH]; intros pre st H; cbn [section_loop]; [exact H|].
  replace (pre ++ s :: rest) with ((pre ++ [s]) ++ rest) by (rewrite <- app_assoc; reflexivity).
  apply IH. rewrite <- app_assoc. cbn [app].
  intros p Hp.
  destruct (section_step_provisions body chapters st s
              match rest with n :: _ => SectionStart.index n | [] => List.length body end)
    as (np & _ & Hc & Hps).
  rewrite Hps in Hp. clear Hps.
  destruct (Nat.ltb _ _) eqn:L; [apply in_app_or in Hp as [Hp|[<-|[]]]|];
    [apply H; exact Hp| |apply H; exact Hp].
  exists pre, s, rest. split; [reflexivity|]. apply Nat.ltb_lt in L.
  split; [exact L | exact Hc].
Qed.

Lemma raw_scan_long (html : jsstr) (p : ParsedProvision.t) :
  In p (provisions (raw_scan html)) ->
  from_long_candidate (bodyHtml_of html) (sectionStarts_of (bodyHtml_of html)) p.
Proof.
  apply (section_loop_long _ _ _ []). intros q [].
Qed.

(** C8: every provision of a parsed record comes from a candidate section
    whose stripped body is longer than ten code units (so a shorter one
    yields none), and holds at most 12,000 code units of that body. *)
Theorem parse_provision_bounds (html : jsstr) (act : ActIndexEntry.t)
  (p : ParsedProvision.t) :
  In p (ParsedAct.provisions (parsePhilippineHtml html act)) ->
  from_long_candidate (bodyHtml_of html) (sectionStarts_of (bodyHtml_of html)) p /\
  List.length (ParsedProvision.content p) <= 12000.
Proof.
  rewrite parse_provisions_eq. intro Hp.
  apply keep_longest_values_in, raw_scan_long in Hp.
  split; [exact Hp|].
  destruct Hp as (pre & s & rest & _ & _ & ->).
  rewrite substring_length, Nat.sub_0_r. apply Nat.le_min_l.
Qed.

Lemma parse_provision_bounds_witness :
  In c8_provision (ParsedAct.provisions (parsePhilippineHtml c5_html sample_act)) /\
  from_long_candidate (bodyHtml_of c5_html) (sectionStarts_of (bodyHtml_of c5_html))
    c8_provision /\
  List.length (ParsedProvision.content c8_provision) <= 12000.
Proof.
  assert (H : In c8_provision
                (ParsedAct.provisions (parsePhilippineHtml c5_html sample_act)))
    by (vm_compute; left; reflexivity).
  split; [exact H | exact (parse_provision_bounds c5_html sample_act c8_provision H)].
Defined.

(** ** The enumerator keeps the first row of a designation number *)


Lemma N_to_uint_nonnil (n : N) : N.to_uint n <> Decimal.Nil.
Proof.
  destruct n as [|p]; [discriminate|]. apply DecimalPos.Unsigned.to_uint_nonnil.
Qed.




Lemma collect_laws_in (seen : list jsstr) (rows : list CensusLaw.t) (x : CensusLaw.t) :
  In x (collect_laws seen rows) -> In x rows.
Proof.
  revert seen; induction rows as [|l rows IH]; intros seen H; cbn [collect_laws] in H;
    [exact H|].
  destruct (existsb _ seen); [right; eapply IH; exact H|].
  destruct H as [<-|H]; [left; reflexivity | right; eapply IH; exact H].
Qed.



Lemma insert_sorted_perm (x : CensusLaw.t) (l : list CensusLaw.t) :
  Permutation (insert_sorted x l) (x :: l).
Proof.
  induction l as [|y t IH]; cbn [insert_sorted]; [reflexivity|].
  destruct (0 <? census_cmp y x)%Z; [reflexivity|].
  eapply perm_trans; [apply perm_skip, IH | apply perm_swap].
Qed.

Lemma sort_laws_perm (l : list CensusLaw.t) : Permutation (sort_laws l) l.
Proof.
  unfold sort_laws. rewrite <- (app_nil_r l) at 2. generalize (@nil CensusLaw.t).
  induction l as [|x l IH]; intro acc; cbn [fold_left app]; [reflexivity|].
  eapply perm_trans; [apply IH|].
  eapply perm_trans; [apply Permutation_app_head, insert_sorted_perm|].
  apply Permutation_sym, Permutation_middle.
Qed.




(** ** The fetcher: retry bound *)

Section Fetcher.

Variable net : nat -> jsstr -> Z * net_outcome.
Variable late : nat -> Z.

Lemma rateLimit_requests (w : world) :
  exists w', rateLimit late w = (Ok tt, w') /\ requests w' = requests w.
Proof.
  unfold rateLimit, bind, date_now, get, modify, sleep, ret.
  destruct (_ <? MIN_DELAY_MS)%Z; eexists; split; reflexivity.
Qed.

(** Every attempt against an endpoint that always answers 503 in time is
    retried until the last one, whose response is returned. *)
Lemma attempts_503 (url : jsstr) (maxRetries : Z)
  (Hnet : forall n, exists d b ct u,
            net n url = (d, NetResponse 503 b ct u) /\ (d < 30000)%Z) :
  forall k a w, (0 <= a)%Z -> (a + Z.of_nat k = maxRetries + 1)%Z -> (1 <= k)%nat ->
  exists f w', attempts net late url maxRetries k a w = (Ok f, w') /\
    FetchResult.status f = 503%Z /\ requests w' = (requests w + k)%nat.
Proof.
  induction k as [|k IH]; intros a w Ha Hk H1; [lia|].
  cbn [attempts]. rewrite (proj2 (Z.leb_le a maxRetries)) by lia.
  unfold bind at 1, http_get.
  destruct (Hnet (requests w)) as (d & b & ct & u & Hn & Hd). rewrite Hn.
  rewrite (proj2 (Z.leb_gt 30000 d)) by lia.
  cbn [Z.eqb Z.leb orb andb].
  destruct (a <? maxRetries)%Z eqn:Ea.
  - apply Z.ltb_lt in Ea.
    unfold bind at 1, sleep.
    destruct (IH (a + 1)%Z
                (tick (set_clock (clock (set_clock (clock w + Z.max 0 d) (count_request w)) +
                   backoff a + late (ticks (set_clock (clock w + Z.max 0 d) (count_request w))))
                   (set_clock (clock w + Z.max 0 d) (count_request w)))))
      as (f & w' & Ha' & Hs & Hr); [lia | lia | lia |].
    exists f, w'. split; [exact Ha'|]. split; [exact Hs|]. rewrite Hr. cbn. lia.
  - apply Z.ltb_ge in Ea.
    assert (k = 0%nat) by lia. subst k.
    eexists _, _. split; [reflexivity|]. split; [reflexivity|]. cbn. lia.
Qed.

End Fetcher.

(** C3: against an endpoint that answers 503 to every request (within the
    30-second timeout), one call of [fetchWithRateLimit] sends exactly
    [maxRetries + 1] requests and returns a result with status 503. *)
Theorem fetch_503_retry_bound (net : nat -> jsstr -> Z * net_outcome) (late : nat -> Z)
  (url : jsstr) (maxRetries : Z) (w : world) :
  (0 <= maxRetries)%Z ->
  (forall n, exists d b ct u, net n url = (d, NetResponse 503 b ct u) /\ (d < 30000)%Z) ->
  exists f w', fetchWithRateLimit net late url maxRetries w = (Ok f, w') /\
    FetchResult.status f = 503%Z /\
    requests w' = (requests w + Z.to_nat (maxRetries + 1))%nat.
Proof.
  intros Hm Hnet. unfold fetchWithRateLimit, bind at 1.
  destruct (rateLimit_requests late w) as (w1 & -> & Hr1).
  destruct (attempts_503 net late url maxRetries Hnet (Z.to_nat (maxRetries + 1)) 0 w1)
    as (f & w' & Ha & Hs & Hr); [lia | lia | lia |].
  exists f, w'. split; [exact Ha|]. split; [exact Hs|]. rewrite Hr, Hr1. reflexivity.
Qed.

Lemma fetch_503_retry_bound_witness :
  exists f w', fetchWithRateLimit always_503 (fun _ => 0%Z) (ActIndexEntry.url sample_act) 3
                 empty_world = (Ok f, w') /\
    FetchResult.status f = 503%Z /\ requests w' = (requests empty_world + 4)%nat.
Proof.
  apply (fetch_503_retry_bound always_503 (fun _ => 0%Z) (ActIndexEntry.url sample_act) 3
           empty_world); [lia|].
  intro n. do 4 eexists. split; [reflexivity | lia].
Defined.

(** ** The fetcher: pacing of consecutive calls *)

(** Simplify the fields of a world after the setters. *)
Ltac wsimpl :=
  cbn [clock lastRequestTime requests ticks sources seeds seed_log
       set_clock set_last tick count_request write_source write_seed] in *.

Section Pacing.

Variable net : nat -> jsstr -> Z * net_outcome.
Variable late : nat -> Z.
(** Timers never fire before their delay. *)
Hypothesis late_nonneg : forall n, (0 <= late n)%Z.

(** [rateLimit] moves the shared timestamp at least [MIN_DELAY_MS] past its
    previous value, to the current time. *)
Lemma rateLimit_spacing (w : world) :
  exists w', rateLimit late w = (Ok tt, w') /\
    (lastRequestTime w + MIN_DELAY_MS <= lastRequestTime w')%Z /\
    lastRequestTime w' = clock w'.
Proof.
  unfold rateLimit, bind, date_now, get, modify, sleep, ret.
  destruct (clock w - lastRequestTime w <? MIN_DELAY_MS)%Z eqn:E.
  - eexists. split; [reflexivity|]. wsimpl. split; [|reflexivity].
    pose proof (late_nonneg (ticks w)). unfold MIN_DELAY_MS in *. lia.
  - eexists. split; [reflexivity|]. wsimpl. split; [|reflexivity].
    apply Z.ltb_ge in E. lia.
Qed.

(** The attempts leave the timestamp alone and never move the clock back. *)
Lemma attempts_clock (url : jsstr) (maxRetries : Z) :
  forall k a w r w', attempts net late url maxRetries k a w = (r, w') ->
  lastRequestTime w' = lastRequestTime w /\ (clock w <= clock w')%Z.
Proof.
  induction k as [|k IH]; intros a w r w' H; cbn [attempts] in H.
  - unfold throw in H. injection H as _ <-. lia.
  - destruct (a <=? maxRetries)%Z; [|unfold throw in H; injection H as _ <-; lia].
    unfold bind at 1, http_get in H.
    destruct (net (requests w) url) as [d o].
    destruct (30000 <=? d)%Z.
    + unfold sleep, bind, throw in H. destruct (a <? maxRetries)%Z.
      * apply IH in H as [H1 H2]. wsimpl. pose proof (late_nonneg (S (ticks w))).
        pose proof (late_nonneg (ticks w)). pose proof (Z.pow_nonneg 2 (a + 1)). unfold backoff in H2.
        split; [exact H1|]. lia.
      * injection H as _ <-. wsimpl. lia.
    + destruct o as [st b ct u|e].
      * destruct (((st =? 429) || (500 <=? st)) && (a <? maxRetries))%Z.
        -- unfold sleep, bind in H. apply IH in H as [H1 H2]. wsimpl.
           pose proof (late_nonneg (ticks w)). pose proof (Z.pow_nonneg 2 (a + 1)). unfold backoff in H2.
           split; [exact H1|]. lia.
        -- unfold ret in H. injection H as _ <-. wsimpl. lia.
      * destruct (a <? maxRetries)%Z.
        -- unfold sleep, bind in H. apply IH in H as [H1 H2]. wsimpl.
           pose proof (late_nonneg (ticks w)). pose proof (Z.pow_nonneg 2 (a + 1)). unfold backoff in H2.
           split; [exact H1|]. lia.
        -- unfold throw in H. injection H as _ <-. wsimpl. lia.
Qed.

(** One call, awaited and with its failure caught, moves the shared
    timestamp at least [MIN_DELAY_MS] forward. *)
Lemma fetch_call_step (u : jsstr) (maxRetries : Z) (w : world) :
  exists w2, try_catch (_ <- fetchWithRateLimit net late u maxRetries ;; ret tt)
                       (fun _ => ret tt) w = (Ok tt, w2) /\
    (lastRequestTime w + MIN_DELAY_MS <= lastRequestTime w2)%Z.
Proof.
  destruct (rateLimit_spacing w) as (w1 & E & H1 & _).
  unfold try_catch, fetchWithRateLimit, bind. rewrite E.
  destruct (attempts net late u maxRetries (Z.to_nat (maxRetries + 1)) 0 w1)
    as [r w2] eqn:Ea.
  apply attempts_clock in Ea as [Hl _].
  destruct r; eexists; (split; [reflexivity | lia]).
Qed.

End Pacing.

Lemma bind_ok {A B} (m : M A) (f : A -> M B) (w : world) (a : A) (w1 : world) :
  m w = (Ok a, w1) -> bind m f w = f a w1.
Proof. intro H. unfold bind. rewrite H. reflexivity. Qed.

(** C9: in a sequence of calls of [fetchWithRateLimit], made one after the
    other, the start of each call (the time [rateLimit] stores in the shared
    [lastRequestTime] when it releases the call's first request) is at least
    [MIN_DELAY_MS] = 500 ms after the start of the call before it, and the
    first one is that long after the timestamp found at the outset. *)
Theorem fetch_calls_paced (net : nat -> jsstr -> Z * net_outcome) (late : nat -> Z)
  (calls : list (jsstr * Z)) (w : world) :
  (forall n, (0 <= late n)%Z) ->
  exists ts w', fetch_calls net late calls w = (Ok ts, w') /\
    List.length ts = List.length calls /\
    spaced MIN_DELAY_MS (lastRequestTime w :: ts).
Proof.
  intro Hlate. revert w. induction calls as [|[u m] rest IH]; intro w.
  - exists [], w. split; [reflexivity|]. split; [reflexivity | exact I].
  - destruct (fetch_call_step net late Hlate u m w) as (w2 & E & Hsp).
    destruct (IH w2) as (ts & w3 & Er & Hl & Hs).
    exists (lastRequestTime w2 :: ts), w3. split.
    + cbn [fetch_calls]. rewrite (bind_ok _ _ _ _ _ E). cbv beta.
      rewrite (bind_ok get _ w2 w2 w2 eq_refl). cbv beta.
      rewrite (bind_ok _ _ _ _ _ Er). reflexivity.
    + split; [cbn [List.length]; rewrite Hl; reflexivity|].
      cbn [spaced]. split; [exact Hsp | exact Hs].
Qed.

Lemma fetch_calls_paced_witness :
  (forall n, (0 <= (fun _ : nat => 0%Z) n)%Z) /\
  exists ts w', fetch_calls always_503 (fun _ => 0%Z)
                  [(ActIndexEntry.url sample_act, 3%Z); (lit "https://lawphil.net/", 0%Z)] empty_world
                = (Ok ts, w') /\
    List.length ts = 2%nat /\
    spaced MIN_DELAY_MS (lastRequestTime empty_world :: ts).
Proof.
  assert (H : forall n, (0 <= (fun _ : nat => 0%Z) n)%Z) by (intro; cbv beta; lia).
  split; [exact H|].
  exact (fetch_calls_paced always_503 (fun _ => 0%Z)
           [(ActIndexEntry.url sample_act, 3%Z); (lit "https://lawphil.net/", 0%Z)] empty_world H).
Defined.

(** ** The ingestion: fallback seeds *)

Section Ingest.

Variable net : nat -> jsstr -> Z * net_outcome.
Variable late : nat -> Z.

Lemma rateLimit_seed_log (w : world) :
  exists w', rateLimit late w = (Ok tt, w') /\ seed_log w' = seed_log w.
Proof.
  unfold rateLimit, bind, date_now, get, modify, sleep, ret.
  destruct (_ <? MIN_DELAY_MS)%Z; eexists; split; reflexivity.
Qed.

Lemma attempts_seed_log (url : jsstr) (maxRetries : Z) :
  forall k a w r w', attempts net late url maxRetries k a w = (r, w') ->
  seed_log w' = seed_log w.
Proof.
  induction k as [|k IH]; intros a w r w' H; cbn [attempts] in H.
  - unfold throw in H. injection H as _ <-. reflexivity.
  - destruct (a <=? maxRetries)%Z; [|unfold throw in H; injection H as _ <-; reflexivity].
    unfold bind at 1, http_get in H.
    destruct (net (requests w) url) as [d o].
    destruct (30000 <=? d)%Z.
    + unfold sleep, bind, throw in H. destruct (a <? maxRetries)%Z.
      * apply IH in H. exact H.
      * injection H as _ <-. reflexivity.
    + destruct o as [st b ct u|e].
      * destruct (((st =? 429) || (500 <=? st)) && (a <? maxRetries))%Z.
        -- unfold sleep, bind in H. apply IH in H. exact H.
        -- unfold ret in H. injection H as _ <-. reflexivity.
      * destruct (a <? maxRetries)%Z.
        -- unfold sleep, bind in H. apply IH in H. exact H.
        -- unfold throw in H. injection H as _ <-. reflexivity.
Qed.

(** The fetcher writes no seed. *)
Lemma fetch_seed_log (url : jsstr) (maxRetries : Z) (w : world) :
  seed_log (snd (fetchWithRateLimit net late url maxRetries w)) = seed_log w.
Proof.
  destruct (rateLimit_seed_log w) as (w1 & E & H1).
  unfold fetchWithRateLimit, bind. rewrite E.
  destruct (attempts net late url maxRetries (Z.to_nat (maxRetries + 1)) 0 w1)
    as [r w2] eqn:Ea.
  apply attempts_seed_log in Ea. cbn [snd]. rewrite Ea. exact H1.
Qed.

(** When the fetch throws or answers with another status than 200, the
    fetch path writes the fallback seed of the act and nothing else. *)
Lemma fetch_html_fallback (act : ActIndexEntry.t) (s : stats) (w : world) :
  match fst (fetchWithRateLimit net late (ActIndexEntry.url act) 3 w) with
  | Ok f => FetchResult.status f <> 200%Z
  | Throw _ => True
  end ->
  exists s' w', fetch_html net late act s w = (Ok (inl s'), w') /\
    seed_log w' = seed_log w ++ [(ActIndexEntry.id act, createFallbackSeed act)].
Proof.
  intro H. pose proof (fetch_seed_log (ActIndexEntry.url act) 3 w) as Hs.
  unfold fetch_html, try_catch, bind.
  destruct (fetchWithRateLimit net late (ActIndexEntry.url act) 3 w) as [[f|e] w1] eqn:E;
    cbn [fst snd] in H, Hs.
  - destruct (FetchResult.status f =? 200)%Z eqn:Es; [apply Z.eqb_eq in Es; contradiction|].
    unfold fallback, bind, modify, ret. eexists _, _. split; [reflexivity|].
    wsimpl. rewrite Hs. reflexivity.
  - unfold fallback, bind, modify, ret. eexists _, _. split; [reflexivity|].
    wsimpl. rewrite Hs. reflexivity.
Qed.

End Ingest.

(** C2: when the act is fetched (always in a full run; with [--skip-fetch]
    only when neither its seed nor its source file exists) and the fetcher
    throws or returns a status other than 200, the one seed written for the
    act has no provisions and no definitions, and its metadata fields are
    those of the act. *)
Theorem fetch_failure_fallback (net : nat -> jsstr -> Z * net_outcome) (late : nat -> Z)
  (skipFetch : bool) (s : stats) (act : ActIndexEntry.t) (w : world) :
  skipFetch = false \/
    (map_get (ActIndexEntry.id act) (seeds w) = None /\
     map_get (ActIndexEntry.id act) (sources w) = None) ->
  match fst (fetchWithRateLimit net late (ActIndexEntry.url act) 3 w) with
  | Ok f => FetchResult.status f <> 200%Z
  | Throw _ => True
  end ->
  exists s' w' rec,
    process_act net late skipFetch s act w = (Ok s', w') /\
    seed_log w' = seed_log w ++ [(ActIndexEntry.id act, rec)] /\
    ParsedAct.provisions rec = [] /\ ParsedAct.definitions rec = [] /\
    ParsedAct.id rec = ActIndexEntry.id act /\
    ParsedAct.title rec = ActIndexEntry.title act /\
    ParsedAct.title_en rec = ActIndexEntry.titleEn act /\
    ParsedAct.short_name rec = ActIndexEntry.shortName act /\
    ParsedAct.status rec = ActIndexEntry.status act /\
    ParsedAct.issued_date rec = ActIndexEntry.issuedDate act /\
    ParsedAct.in_force_date rec = ActIndexEntry.inForceDate act /\
    ParsedAct.url rec = ActIndexEntry.url act /\
    ParsedAct.description rec = ActIndexEntry.description act.
Proof.
  intros Hpath Hfail.
  destruct (fetch_html_fallback net late act s w Hfail) as (s' & w' & Ef & Hl).
  assert (Eo : obtain_html net late act skipFetch s w = fetch_html net late act s w).
  { unfold obtain_html, bind, get.
    destruct Hpath as [->|[_ ->]]; [destruct (map_get _ _)|]; reflexivity. }
  exists s', w', (createFallbackSeed act). split.
  - unfold process_act, bind at 1, get.
    assert (Es : (if skipFetch then map_get (ActIndexEntry.id act) (seeds w) else None) = None)
      by (destruct Hpath as [->|[-> _]]; [reflexivity | destruct skipFetch; reflexivity]).
    rewrite Es. unfold bind. rewrite Eo, Ef. reflexivity.
  - split; [exact Hl|]. repeat split.
Qed.

Lemma fetch_failure_fallback_witness :
  exists s' w' rec,
    process_act always_503 (fun _ => 0%Z) false stats0 sample_act empty_world = (Ok s', w') /\
    seed_log w' = seed_log empty_world ++ [(ActIndexEntry.id sample_act, rec)] /\
    ParsedAct.provisions rec = [] /\ ParsedAct.definitions rec = [] /\
    ParsedAct.id rec = ActIndexEntry.id sample_act /\
    ParsedAct.title rec = ActIndexEntry.title sample_act /\
    ParsedAct.title_en rec = ActIndexEntry.titleEn sample_act /\
    ParsedAct.short_name rec = ActIndexEntry.shortName sample_act /\
    ParsedAct.status rec = ActIndexEntry.status sample_act /\
    ParsedAct.issued_date rec = ActIndexEntry.issuedDate sample_act /\
    ParsedAct.in_force_date rec = ActIndexEntry.inForceDate sample_act /\
    ParsedAct.url rec = ActIndexEntry.url sample_act /\
    ParsedAct.description rec = ActIndexEntry.description sample_act.
Proof.
  apply (fetch_failure_fallback always_503 (fun _ => 0%Z) false stats0 sample_act
           empty_world).
  - left. reflexivity.
  - vm_compute. intro Hc. discriminate Hc.
Defined.

(** ** The ingestion: one seed per act of the work list *)

Section Coverage.

Variable net : nat -> jsstr -> Z * net_outcome.
Variable late : nat -> Z.

Lemma fetch_html_ok (act : ActIndexEntry.t) (s : stats) (w : world) (f : FetchResult.t)
  (w1 : world) :
  fetchWithRateLimit net late (ActIndexEntry.url act) 3 w = (Ok f, w1) ->
  FetchResult.status f = 200%Z ->
  fetch_html net late act s w =
    (Ok (inr (FetchResult.body f)),
     write_source (ActIndexEntry.id act) (FetchResult.body f) w1).
Proof.
  intros E Es. unfold fetch_html, try_catch, bind. rewrite E, Es. reflexivity.
Qed.

(** In a full run every act writes exactly one seed, under its identifier,
    whose record carries that identifier. *)
Lemma process_act_full (s : stats) (act : ActIndexEntry.t) (w : world) :
  exists s' w' rec, process_act net late false s act w = (Ok s', w') /\
    seed_log w' = seed_log w ++ [(ActIndexEntry.id act, rec)] /\
    ParsedAct.id rec = ActIndexEntry.id act.
Proof.
  assert (Eo : obtain_html net late act false s w = fetch_html net late act s w).
  { unfold obtain_html, bind, get. destruct (map_get _ _); reflexivity. }
  unfold process_act, bind at 1, get. cbv beta iota.
  destruct (fetchWithRateLimit net late (ActIndexEntry.url act) 3 w) as [[f|e] w1] eqn:E.
  - destruct (FetchResult.status f =? 200)%Z eqn:Es.
    + apply Z.eqb_eq in Es.
      pose proof (f_equal (@snd _ _) E) as Hw. cbn [snd] in Hw.
      pose proof (fetch_seed_log net late (ActIndexEntry.url act) 3 w) as Hs.
      rewrite Hw in Hs.
      unfold bind at 1. rewrite Eo, (fetch_html_ok act s w f w1 E Es).
      eexists _, _, _. split; [reflexivity|].
      split; [wsimpl; rewrite Hs; reflexivity | reflexivity].
    + apply Z.eqb_neq in Es.
      destruct (fetch_html_fallback net late act s w) as (s' & w' & Ef & Hl);
        [rewrite E; exact Es|].
      unfold bind at 1. rewrite Eo, Ef.
      exists s', w', (createFallbackSeed act). split; [reflexivity|].
      split; [exact Hl | reflexivity].
  - destruct (fetch_html_fallback net late act s w) as (s' & w' & Ef & Hl);
      [rewrite E; exact I|].
    unfold bind at 1. rewrite Eo, Ef.
    exists s', w', (createFallbackSeed act). split; [reflexivity|].
    split; [exact Hl | reflexivity].
Qed.

Lemma process_acts_full (acts : list ActIndexEntry.t) :
  forall s w, exists s' w' recs, process_acts net late false s acts w = (Ok s', w') /\
    seed_log w' = seed_log w ++ recs /\
    map fst recs = map ActIndexEntry.id acts /\
    Forall (fun e => ParsedAct.id (snd e) = fst e) recs.
Proof.
  induction acts as [|act acts IH]; intros s w.
  - exists s, w, []. split; [reflexivity|]. split; [symmetry; apply app_nil_r|].
    split; [reflexivity | constructor].
  - destruct (process_act_full s act w) as (s1 & w1 & rec & E1 & H1 & Hid).
    destruct (IH s1 w1) as (s2 & w2 & recs & E2 & H2 & Hm & Hf).
    exists s2, w2, ((ActIndexEntry.id act, rec) :: recs). split.
    + cbn [process_acts]. rewrite (bind_ok _ _ _ _ _ E1). exact E2.
    + split; [rewrite H2, H1, <- app_assoc; reflexivity|].
      split; [cbn [map fst]; rewrite Hm; reflexivity|].
      constructor; [exact Hid | exact Hf].
Qed.

End Coverage.

Lemma nodupb_NoDup (l : list jsstr) : nodupb l = true -> NoDup l.
Proof.
  induction l as [|x t IH]; cbn [nodupb]; intro H; [constructor|].
  apply andb_true_iff in H as [Hx Ht]. constructor; [|apply IH, Ht].
  intro Hin. apply negb_true_iff in Hx.
  assert (existsb (jsstr_eqb x) t = true) by (apply existsb_exists; eauto using jsstr_eqb_refl).
  congruence.
Qed.

Lemma work_list_ids_nodup (limit : option Z) :
  NoDup (map ActIndexEntry.id (work_list limit)).
Proof.
  assert (H : NoDup (map ActIndexEntry.id KEY_PHILIPPINE_ACTS))
    by (apply nodupb_NoDup; vm_compute; reflexivity).
  assert (Hf : forall k, NoDup (map ActIndexEntry.id (firstn k KEY_PHILIPPINE_ACTS))).
  { intro k. rewrite <- firstn_map.
    apply (NoDup_app_remove_r _ (skipn k (map ActIndexEntry.id KEY_PHILIPPINE_ACTS))).
    rewrite firstn_skipn. exact H. }
  unfold work_list, js_slice0.
  destruct limit as [n|]; [|exact H].
  destruct (n =? 0)%Z; [exact H|]. destruct (0 <=? n)%Z; apply Hf.
Qed.

(** C1 (counterexample): the enumerator lists [ra-12036], but the ingestion
    run works from its own fixed list and writes no record with that
    identifier. *)
Lemma coverage_counterexample :
  (exists laws, census_laws c1_index = Some laws /\
     existsb (jsstr_eqb (lit "ra-12036")) (map CensusLaw.id laws) = true) /\
  map fst (seed_log (snd (ingest_main always_503 (fun _ => 0%Z) None false empty_world)))
    = map ActIndexEntry.id KEY_PHILIPPINE_ACTS /\
  existsb (fun e => jsstr_eqb (fst e) (lit "ra-12036"))
    (seed_log (snd (ingest_main always_503 (fun _ => 0%Z) None false empty_world))) = false.
Proof.
  split; [eexists; split; [reflexivity | vm_compute; reflexivity]|].
  split; vm_compute; reflexivity.
Qed.

(** C1 (amended): a full run of the ingestion (without [--skip-fetch])
    writes, for each act of its fixed work list ([KEY_PHILIPPINE_ACTS], or
    its first [limit] entries), exactly one record, in order, whose
    identifier is the act's; the identifiers written are pairwise
    distinct.  The run does not read the enumerator's output. *)
Theorem ingest_one_record_per_act (net : nat -> jsstr -> Z * net_outcome)
  (late : nat -> Z) (limit : option Z) (w : world) :
  exists s w' recs, ingest_main net late limit false w = (Ok s, w') /\
    seed_log w' = seed_log w ++ recs /\
    map fst recs = map ActIndexEntry.id (work_list limit) /\
    NoDup (map fst recs) /\
    Forall (fun e => ParsedAct.id (snd e) = fst e) recs.
Proof.
  destruct (process_acts_full net late (work_list limit) stats0 w)
    as (s & w' & recs & E & Hl & Hm & Hf).
  exists s, w', recs. split; [exact E|]. split; [exact Hl|]. split; [exact Hm|].
  split; [rewrite Hm; apply work_list_ids_nodup | exact Hf].
Qed.

(** ** The fetcher: requests, failures and back-off *)

Section FetcherMore.

Variable net : nat -> jsstr -> Z * net_outcome.
Variable late : nat -> Z.

Lemma attempts_requests (url : jsstr) (maxRetries : Z) :
  forall k a w r w', attempts net late url maxRetries k a w = (r, w') ->
  (requests w <= requests w' <= requests w + k)%nat /\
  ((a <= maxRetries)%Z -> (1 <= k)%nat -> (S (requests w) <= requests w')%nat).
Proof.
  induction k as [|k IH]; intros a w r w' H; cbn [attempts] in H.
  - unfold throw in H. injection H as _ <-. split; [lia | intros _ H1; lia].
  - destruct (a <=? maxRetries)%Z eqn:Ea;
      [|unfold throw in H; injection H as _ <-; split;
        [lia | intro H0; apply Z.leb_gt in Ea; lia]].
    unfold bind at 1, http_get in H.
    destruct (net (requests w) url) as [d o].
    destruct (30000 <=? d)%Z.
    + unfold sleep, bind, throw in H. destruct (a <? maxRetries)%Z.
      * apply IH in H as [H1 _]. wsimpl. split; [lia | intros; lia].
      * injection H as _ <-. wsimpl. split; [lia | intros; lia].
    + destruct o as [st b ct u|e].
      * destruct (((st =? 429) || (500 <=? st)) && (a <? maxRetries))%Z.
        -- unfold sleep, bind in H. apply IH in H as [H1 _]. wsimpl.
           split; [lia | intros; lia].
        -- unfold ret in H. injection H as _ <-. wsimpl. split; [lia | intros; lia].
      * destruct (a <? maxRetries)%Z.
        -- unfold sleep, bind in H. apply IH in H as [H1 _]. wsimpl.
           split; [lia | intros; lia].
        -- unfold throw in H. injection H as _ <-. wsimpl. split; [lia | intros; lia].
Qed.

Lemma fetch_requests (url : jsstr) (maxRetries : Z) (w : world) :
  (requests (snd (fetchWithRateLimit net late url maxRetries w)) <=
     requests w + Z.to_nat (maxRetries + 1))%nat /\
  ((0 <= maxRetries)%Z ->
   (S (requests w) <= requests (snd (fetchWithRateLimit net late url maxRetries w)))%nat).
Proof.
  destruct (rateLimit_requests late w) as (w1 & E & H1).
  unfold fetchWithRateLimit, bind. rewrite E.
  destruct (attempts net late url maxRetries (Z.to_nat (maxRetries + 1)) 0 w1)
    as [r w2] eqn:Ea.
  apply attempts_requests in Ea as [Hu Hl]. cbn [snd]. rewrite H1 in *.
  split; [lia | intro Hm; apply Hl; lia].
Qed.

End FetcherMore.

Section FetcherFail.

Variable net : nat -> jsstr -> Z * net_outcome.
Variable late : nat -> Z.

Lemma attempts_failing (url : jsstr) (maxRetries : Z)
  (Hnet : forall n, failing (net n url)) :
  forall k a w, (0 <= a)%Z -> (a + Z.of_nat k = maxRetries + 1)%Z -> (1 <= k)%nat ->
  exists e w', attempts net late url maxRetries k a w = (Throw e, w') /\
    requests w' = (requests w + k)%nat.
Proof.
  induction k as [|k IH]; intros a w Ha Hk H1; [lia|].
  cbn [attempts]. rewrite (proj2 (Z.leb_le a maxRetries)) by lia.
  unfold bind at 1, http_get.
  destruct (net (requests w) url) as [d o] eqn:En.
  assert (Hf : (30000 <= d)%Z \/ exists e, o = NetError e)
    by (specialize (Hnet (requests w)); rewrite En in Hnet; exact Hnet).
  destruct (a <? maxRetries)%Z eqn:Ea.
  - pose proof (proj1 (Z.ltb_lt _ _) Ea) as Ea'.
    assert (Hstep : forall w2, requests w2 = S (requests w) ->
              exists e w', (sleep late (backoff a) ;;;
                 attempts net late url maxRetries k (a + 1)) w2 = (Throw e, w') /\
                 requests w' = (requests w + S k)%nat).
    { intros w2 Hw2. unfold bind at 1, sleep.
      destruct (IH (a + 1)%Z (tick (set_clock (clock w2 + backoff a + late (ticks w2)) w2)))
        as (e & w' & He & Hr); [lia | lia | lia |].
      exists e, w'. split; [exact He|]. rewrite Hr. wsimpl. lia. }
    destruct (30000 <=? d)%Z eqn:Ed.
    + unfold bind. cbv beta iota. try rewrite Ea.
      apply Hstep. reflexivity.
    + destruct Hf as [Hd|[e He]]; [apply Z.leb_gt in Ed; lia|]. subst o.
      unfold bind. cbv beta iota. try rewrite Ea.
      apply Hstep. reflexivity.
  - apply Z.ltb_ge in Ea. assert (k = 0%nat) by lia. subst k.
    destruct (30000 <=? d)%Z eqn:Ed.
    + unfold bind. cbv beta iota. try rewrite Ea. unfold throw.
      eexists _, _. split; [reflexivity|]. wsimpl. lia.
    + destruct Hf as [Hd|[e He]]; [apply Z.leb_gt in Ed; lia|]. subst o.
      unfold bind. cbv beta iota. try rewrite Ea. unfold throw.
      eexists _, _. split; [reflexivity|]. wsimpl. lia.
Qed.

Hypothesis late_nonneg : forall n, (0 <= late n)%Z.



End FetcherFail.


(** X1: with [maxRetries >= 0], one call of [fetchWithRateLimit] sends at
    least one and at most [maxRetries + 1] requests, whatever the network
    does. *)
Theorem fetch_request_bound (net : nat -> jsstr -> Z * net_outcome) (late : nat -> Z)
  (url : jsstr) (maxRetries : Z) (w : world) :
  (0 <= maxRetries)%Z ->
  (S (requests w) <= requests (snd (fetchWithRateLimit net late url maxRetries w)) <=
     requests w + Z.to_nat (maxRetries + 1))%nat.
Proof.
  intro Hm. destruct (fetch_requests net late url maxRetries w) as [Hu Hl].
  split; [apply Hl, Hm | exact Hu].
Qed.

Lemma fetch_request_bound_witness :
  (0 <= 3)%Z /\
  (S (requests empty_world) <=
     requests (snd (fetchWithRateLimit always_503 (fun _ => 0%Z)
                      (ActIndexEntry.url sample_act) 3 empty_world)) <=
     requests empty_world + Z.to_nat (3 + 1))%nat.
Proof.
  split; [lia|].
  apply (fetch_request_bound always_503 (fun _ => 0%Z) (ActIndexEntry.url sample_act) 3
           empty_world). lia.
Defined.

(** X2: with a negative [maxRetries] the retry loop never runs: the call
    sends no request and throws. *)
Theorem fetch_negative_retries (net : nat -> jsstr -> Z * net_outcome) (late : nat -> Z)
  (url : jsstr) (maxRetries : Z) (w : world) :
  (maxRetries < 0)%Z ->
  exists e, fst (fetchWithRateLimit net late url maxRetries w) = Throw e /\
    requests (snd (fetchWithRateLimit net late url maxRetries w)) = requests w.
Proof.
  intro Hm. destruct (rateLimit_requests late w) as (w1 & E & H1).
  unfold fetchWithRateLimit, bind. rewrite E.
  replace (Z.to_nat (maxRetries + 1)) with 0%nat by lia.
  cbn [attempts]. unfold throw. eexists. split; [reflexivity|]. exact H1.
Qed.

Lemma fetch_negative_retries_witness :
  (-1 < 0)%Z /\
  exists e, fst (fetchWithRateLimit always_503 (fun _ => 0%Z)
                  (ActIndexEntry.url sample_act) (-1) empty_world) = Throw e /\
    requests (snd (fetchWithRateLimit always_503 (fun _ => 0%Z)
                     (ActIndexEntry.url sample_act) (-1) empty_world)) =
    requests empty_world.
Proof.
  split; [lia|].
  apply (fetch_negative_retries always_503 (fun _ => 0%Z) (ActIndexEntry.url sample_act)
           (-1) empty_world). lia.
Defined.

(** X3: when the first response arrives in time with a status that is
    neither 429 nor 5xx, the call returns it after that single request,
    with an empty content type when the header is missing. *)
Theorem fetch_final_response (net : nat -> jsstr -> Z * net_outcome) (late : nat -> Z)
  (url : jsstr) (maxRetries : Z) (w : world)
  (d st : Z) (b : jsstr) (ct : option jsstr) (u : jsstr) :
  (0 <= maxRetries)%Z ->
  net (requests w) url = (d, NetResponse st b ct u) -> (d < 30000)%Z ->
  st <> 429%Z -> (st < 500)%Z ->
  exists w', fetchWithRateLimit net late url maxRetries w =
    (Ok (FetchResult.mk st b (match ct with Some c => c | None => [] end) u), w') /\
    requests w' = S (requests w).
Proof.
  intros Hm Hn Hd H429 H500. destruct (rateLimit_requests late w) as (w1 & E & H1).
  unfold fetchWithRateLimit, bind at 1. rewrite E.
  destruct (Z.to_nat (maxRetries + 1)) as [|k] eqn:Ek; [lia|].
  cbn [attempts]. rewrite (proj2 (Z.leb_le 0 maxRetries) Hm).
  unfold bind at 1, http_get. rewrite H1, Hn.
  rewrite (proj2 (Z.leb_gt 30000 d) Hd).
  rewrite (proj2 (Z.eqb_neq st 429) H429), (proj2 (Z.leb_gt 500 st) H500).
  cbn [orb andb]. unfold ret. eexists. split; [reflexivity|]. wsimpl. rewrite H1. reflexivity.
Qed.

Lemma fetch_final_response_witness :
  (0 <= 3)%Z /\
  always_200 (requests empty_world) (ActIndexEntry.url sample_act) =
    (80%Z, NetResponse 200 c5_html None (ActIndexEntry.url sample_act)) /\
  (80 < 30000)%Z /\ 200%Z <> 429%Z /\ (200 < 500)%Z /\
  exists w', fetchWithRateLimit always_200 (fun _ => 0%Z) (ActIndexEntry.url sample_act) 3
               empty_world =
    (Ok (FetchResult.mk 200 c5_html [] (ActIndexEntry.url sample_act)), w') /\
    requests w' = S (requests empty_world).
Proof.
  assert (Hn : always_200 (requests empty_world) (ActIndexEntry.url sample_act) =
                 (80%Z, NetResponse 200 c5_html None (ActIndexEntry.url sample_act)))
    by reflexivity.
  split; [lia|]. split; [exact Hn|]. split; [lia|]. split; [discriminate|]. split; [lia|].
  exact (fetch_final_response always_200 (fun _ => 0%Z) (ActIndexEntry.url sample_act) 3
           empty_world 80 200 c5_html None (ActIndexEntry.url sample_act)
           ltac:(lia) Hn ltac:(lia) ltac:(discriminate) ltac:(lia)).
Defined.

(** X4: against an endpoint where every request times out or fails in the
    network, a call with [maxRetries >= 0] sends exactly [maxRetries + 1]
    requests and then throws. *)
Theorem fetch_failing_throws (net : nat -> jsstr -> Z * net_outcome) (late : nat -> Z)
  (url : jsstr) (maxRetries : Z) (w : world) :
  (0 <= maxRetries)%Z -> (forall n, failing (net n url)) ->
  exists e w', fetchWithRateLimit net late url maxRetries w = (Throw e, w') /\
    requests w' = (requests w + Z.to_nat (maxRetries + 1))%nat.
Proof.
  intros Hm Hnet. destruct (rateLimit_requests late w) as (w1 & E & H1).
  unfold fetchWithRateLimit, bind at 1. rewrite E.
  destruct (attempts_failing net late url maxRetries Hnet (Z.to_nat (maxRetries + 1)) 0 w1)
    as (e & w' & Ha & Hr); [lia | lia | lia |].
  exists e, w'. split; [exact Ha|]. rewrite Hr, H1. reflexivity.
Qed.

Lemma fetch_failing_throws_witness :
  (0 <= 3)%Z /\ (forall n, failing (always_down n (ActIndexEntry.url sample_act))) /\
  exists e w', fetchWithRateLimit always_down (fun _ => 0%Z) (ActIndexEntry.url sample_act) 3
                 empty_world = (Throw e, w') /\
    requests w' = (requests empty_world + Z.to_nat (3 + 1))%nat.
Proof.
  assert (Hf : forall n, failing (always_down n (ActIndexEntry.url sample_act)))
    by (intro n; right; eexists; reflexivity).
  split; [lia|]. split; [exact Hf|].
  exact (fetch_failing_throws always_down (fun _ => 0%Z) (ActIndexEntry.url sample_act) 3
           empty_world ltac:(lia) Hf).
Defined.



(** ** The matcher stays inside the input *)

Lemma mt_span (f : flags) (r : regex) :
  forall s cp k res, mt f r s cp k = Some res ->
  exists s' cp', k s' cp' = Some res /\ pos s + minlen r <= pos s' /\
    pos s' + List.length (rest s') = pos s + List.length (rest s).
Proof.
  induction r as [| c | neg rs | a IHa b IHb | a IHa b IHb | g a IHa | n a IHa | | |];
    intros s cp k res H; cbn [mt minlen] in *.
  - exists s, cp. split; [assumption | lia].
  - destruct (rest s) as [|x t] eqn:E; [discriminate|].
    destruct (chr_match f c x); [|discriminate].
    exists (advance s), cp. split; [assumption|]. unfold advance; rewrite E; simpl; lia.
  - destruct (rest s) as [|x t] eqn:E; [discriminate|].
    destruct (cls_match f neg rs x); [|discriminate].
    exists (advance s), cp. split; [assumption|]. unfold advance; rewrite E; simpl; lia.
  - apply IHa in H as (s1 & c1 & H1 & P1 & Q1).
    apply IHb in H1 as (s2 & c2 & H2 & P2 & Q2).
    exists s2, c2. split; [assumption | lia].
  - destruct (mt f a s cp k) as [v|] eqn:E.
    + injection H as <-. apply IHa in E as (s1 & c1 & H1 & P1 & Q1).
      exists s1, c1. split; [assumption | lia].
    + apply IHb in H as (s1 & c1 & H1 & P1 & Q1).
      exists s1, c1. split; [assumption | lia].
  - remember (S (List.length (rest s))) as fuel eqn:Ef. clear Ef.
    revert s cp H. induction fuel as [|fuel IHf]; intros s cp H; cbn [star_loop] in H;
      [discriminate|].
    destruct g.
    + destruct (mt f a s cp _) as [v|] eqn:E.
      * injection H as <-. apply IHa in E as (s1 & c1 & H1 & P1 & Q1).
        destruct (Nat.eqb (pos s1) (pos s)); [discriminate|].
        apply IHf in H1 as (s2 & c2 & H2 & P2 & Q2).
        exists s2, c2. split; [assumption | lia].
      * exists s, cp. split; [assumption | lia].
    + destruct (k s cp) as [v|] eqn:E.
      * injection H as <-. exists s, cp. split; [assumption | lia].
      * apply IHa in H as (s1 & c1 & H1 & P1 & Q1).
        destruct (Nat.eqb (pos s1) (pos s)); [discriminate|].
        apply IHf in H1 as (s2 & c2 & H2 & P2 & Q2).
        exists s2, c2. split; [assumption | lia].
  - apply IHa in H as (s1 & c1 & H1 & P1 & Q1).
    eexists s1, _. split; [exact H1 | lia].
  - destruct (at_bol f s); [|discriminate]. exists s, cp. split; [assumption | lia].
  - destruct (at_eol f s); [|discriminate]. exists s, cp. split; [assumption | lia].
  - destruct (at_word_boundary s); [|discriminate]. exists s, cp. split; [assumption | lia].
Qed.

Lemma search_from_span (re : jsregexp) (l : jsstr) :
  forall p pv m, search_from re p pv l = Some m ->
  p <= m_index m /\ m_index m + minlen (re_pat re) <= m_end m /\ m_end m <= p + List.length l.
Proof.
  induction l as [|x t IH]; intros p pv m H; cbn [search_from] in H;
    destruct (try_at re _) as [[e c]|] eqn:E.
  - injection H as <-. unfold try_at in E. apply mt_span in E as (s' & c' & Hk & P & Q).
    injection Hk as <- <-. cbn [pos rest m_index m_end] in *. lia.
  - discriminate.
  - injection H as <-. unfold try_at in E. apply mt_span in E as (s' & c' & Hk & P & Q).
    injection Hk as <- <-. cbn [pos rest m_index m_end List.length] in *. lia.
  - apply IH in H. cbn [List.length]. lia.
Qed.

Lemma exec_at_span (re : jsregexp) (input : jsstr) (li : nat) (m : rmatch) :
  exec_at re input li = Some m ->
  li <= m_index m /\ m_index m + minlen (re_pat re) <= m_end m /\
  m_end m <= List.length input.
Proof.
  unfold exec_at. destruct (Nat.ltb (List.length input) li) eqn:L; [discriminate|].
  apply Nat.ltb_ge in L. intro H. apply search_from_span in H.
  rewrite length_skipn in H. lia.
Qed.

(** A replacement no longer than the shortest match never lengthens the text. *)
Lemma replace_fuel_length (re : jsregexp) (repl input : jsstr) :
  List.length repl <= minlen (re_pat re) ->
  forall fuel from li, from <= li ->
  List.length (replace_fuel fuel re input repl from li) <= List.length input - from.
Proof.
  intros Hr fuel. induction fuel as [|fuel IH]; intros from li Hf; cbn [replace_fuel].
  - rewrite length_skipn. lia.
  - destruct (exec_at re input li) as [m|] eqn:E; [|rewrite length_skipn; lia].
    apply exec_at_span in E as (P1 & P2 & P3).
    rewrite !length_app, substring_length.
    assert (Hrec : List.length (replace_fuel fuel re input repl (m_end m)
               (if Nat.eqb (m_end m) (m_index m) then S (m_end m) else m_end m))
             <= List.length input - m_end m)
      by (apply IH; destruct (Nat.eqb _ _); lia).
    lia.
Qed.

Lemma replace_all_length (re : jsregexp) (repl input : jsstr) (n : nat) :
  Nat.leb (List.length repl) (minlen (re_pat re)) = true ->
  List.length input <= n -> List.length (replace_all re repl input) <= n.
Proof.
  intros Hr Hn. apply Nat.leb_le in Hr. unfold replace_all.
  pose proof (replace_fuel_length re repl input Hr (S (S (List.length input))) 0 0 (le_n 0)).
  lia.
Qed.

Lemma stripHtml_length (html : jsstr) :
  List.length (stripHtml html) <= List.length html.
Proof.
  unfold stripHtml. eapply Nat.le_trans; [apply trim_length|].
  repeat (apply replace_all_length; [vm_compute; reflexivity|]). apply le_n.
Qed.

Lemma census_stripHtml_length (html : jsstr) :
  List.length (census_stripHtml html) <= List.length html.
Proof.
  unfold census_stripHtml. eapply Nat.le_trans; [apply trim_length|].
  repeat (apply replace_all_length; [vm_compute; reflexivity|]). apply le_n.
Qed.

Lemma bodyHtml_of_length (html : jsstr) :
  List.length (bodyHtml_of html) <= List.length html.
Proof.
  unfold bodyHtml_of. destruct (str_match bodyPattern html) as [m|]; [|lia].
  unfold group_or_empty, group.
  destruct (find _ (m_caps m)) as [[? [a b]]|]; [rewrite substring_length|]; cbn; lia.
Qed.

Lemma candidate_text_eq (body : jsstr) (s : SectionStart.t) (rest : list SectionStart.t) :
  candidate_text body s rest =
  stripHtml (substring body (SectionStart.index s) (next_start body rest)).
Proof. reflexivity. Qed.

(** ** Shape of the parsed provisions and definitions *)

Lemma fold_chapter (chapters : list Chapter.t) (i : nat) :
  forall init,
  fold_left (fun cur (ch : Chapter.t) =>
               if Nat.leb (Chapter.index ch) i then Chapter.name ch else cur) chapters init
    = init \/
  exists ch, In ch chapters /\
    fold_left (fun cur (ch : Chapter.t) =>
                 if Nat.leb (Chapter.index ch) i then Chapter.name ch else cur) chapters init
      = Chapter.name ch.
Proof.
  induction chapters as [|c t IH]; intro init; cbn [fold_left]; [left; reflexivity|].
  destruct (IH (if Nat.leb (Chapter.index c) i then Chapter.name c else init))
    as [->|(ch & Hin & ->)].
  - destruct (Nat.leb _ _); [right; exists c; split; [left|]; reflexivity | left; reflexivity].
  - right. exists ch. split; [right; exact Hin | reflexivity].
Qed.

Lemma section_step_fields (body : jsstr) (chapters : list Chapter.t) (st : scan)
  (start : SectionStart.t) (nextStart : nat) :
  exists chap title content,
    (chap = currentChapter st \/ exists ch, In ch chapters /\ chap = Chapter.name ch) /\
    currentChapter (section_step body chapters st start nextStart) = chap /\
    provisions (section_step body chapters st start nextStart) =
      if Nat.ltb 10 (List.length content)
      then provisions st ++
             [ParsedProvision.mk (lit "sec" ++ toLowerCase (SectionStart.sectionNum start))
                (match chap with [] => None | _ => Some chap end)
                (SectionStart.sectionNum start) title (substring content 0 12000)]
      else provisions st.
Proof.
  exists (fold_left (fun cur (ch : Chapter.t) =>
            if Nat.leb (Chapter.index ch) (SectionStart.index start)
            then Chapter.name ch else cur) chapters (currentChapter st)).
  eexists _, _. split; [apply fold_chapter|]. split; reflexivity.
Qed.

Lemma section_loop_fields (body : jsstr) (chapters : list Chapter.t)
  (all : list SectionStart.t) :
  forall starts st, incl starts all ->
  chapter_ok chapters (currentChapter st) ->
  (forall s, In s starts -> SectionStart.sectionNum s <> []) ->
  (forall p, In p (provisions st) -> provision_from all chapters p) ->
  forall p, In p (provisions (section_loop body chapters st starts)) ->
  provision_from all chapters p.
Proof.
  induction starts as [|s rest IH]; intros st Hincl Hc Hne H; cbn [section_loop]; [exact H|].
  apply IH.
  - intros x Hx. apply Hincl. right. exact Hx.
  - destruct (section_step_fields body chapters st s
                match rest with n :: _ => SectionStart.index n | [] => List.length body end)
      as (chap & title & content & Hch & -> & _).
    destruct Hch as [->|(ch & Hin & ->)]; [exact Hc | right; exists ch; split; auto].
  - intros x Hx. apply Hne. right. exact Hx.
  - intros p Hp.
    destruct (section_step_fields body chapters st s
                match rest with n :: _ => SectionStart.index n | [] => List.length body end)
      as (chap & title & content & Hch & _ & Hps).
    rewrite Hps in Hp. clear Hps.
    destruct (Nat.ltb _ _); [apply in_app_or in Hp as [Hp|[<-|[]]]|]; [apply H; exact Hp| |apply H; exact Hp].
    exists s. split; [apply Hincl; left; reflexivity|]. cbn [ParsedProvision.section
      ParsedProvision.provision_ref ParsedProvision.chapter].
    split; [reflexivity|]. split; [reflexivity|].
    assert (Hok : chapter_ok chapters chap)
      by (destruct Hch as [->|(ch & Hin & ->)]; [exact Hc | right; exists ch; auto]).
    destruct chap as [|c cs] eqn:Ec; [left; reflexivity|right].
    destruct Hok as [Hn|(ch & Hin & He)]; [discriminate|].
    exists ch. split; [exact Hin|]. rewrite <- He. split; [reflexivity | discriminate].
Qed.

Lemma sectionStarts_nonempty (body : jsstr) (s : SectionStart.t) :
  In s (sectionStarts_of body) -> SectionStart.sectionNum s <> [].
Proof.
  unfold sectionStarts_of. intro H. apply in_flat_map in H as (m & _ & H).
  unfold section_start_of in H. destruct (trim _) as [|c t] eqn:E; [contradiction|].
  destruct H as [<-|[]]. cbn [SectionStart.sectionNum]. discriminate.
Qed.

Lemma raw_scan_fields (html : jsstr) (p : ParsedProvision.t) :
  In p (provisions (raw_scan html)) ->
  provision_from (sectionStarts_of (bodyHtml_of html)) (chapters_of (bodyHtml_of html)) p.
Proof.
  apply section_loop_fields.
  - intros x Hx. exact Hx.
  - left. reflexivity.
  - apply sectionStarts_nonempty.
  - intros q [].
Qed.

Lemma definition_of_match_bounds (text ref : jsstr) (m : rmatch) (d : ParsedDefinition.t) :
  definition_of_match text ref m = Some d ->
  0 < List.length (ParsedDefinition.term d) < 100 /\
  5 < List.length (ParsedDefinition.definition d) <= 4000.
Proof.
  unfold definition_of_match. destruct (_ && _ && _) eqn:E; [|discriminate].
  intro H. injection H as <-. cbn [ParsedDefinition.term ParsedDefinition.definition].
  apply andb_true_iff in E as [E E3]. apply andb_true_iff in E as [E1 E2].
  apply Nat.ltb_lt in E1, E2, E3. rewrite substring_length, Nat.sub_0_r.
  split; [lia|]. split; [|apply Nat.le_min_l].
  apply Nat.min_glb_lt; [apply Nat.ltb_lt; reflexivity | lia].
Qed.

Lemma section_loop_defs (P : ParsedDefinition.t -> Prop)
  (HP : forall text ref m d, definition_of_match text ref m = Some d -> P d)
  (body : jsstr) (chapters : list Chapter.t) :
  forall starts st, (forall d, In d (definitions st) -> P d) ->
  forall d, In d (definitions (section_loop body chapters st starts)) -> P d.
Proof.
  induction starts as [|s rest IH]; intros st H; cbn [section_loop]; [exact H|].
  apply IH. intros d Hd.
  destruct (section_step_definitions body chapters st s
              match rest with n :: _ => SectionStart.index n | [] => List.length body end)
    as (b & Hds).
  rewrite Hds in Hd. clear Hds.
  destruct b; [|apply H; exact Hd].
  unfold extractDefinitions in Hd. apply in_app_or in Hd as [Hd|Hd]; [apply H; exact Hd|].
  apply in_flat_map in Hd as (m & _ & Hd).
  destruct (definition_of_match _ _ m) as [d'|] eqn:E; [|contradiction].
  destruct Hd as [<-|[]]. eapply HP. exact E.
Qed.

(** X6: neither the fetcher's nor the enumerator's HTML stripping ever makes a
    text longer. *)
Theorem strip_html_never_longer (html : jsstr) :
  List.length (stripHtml html) <= List.length html /\
  List.length (census_stripHtml html) <= List.length html.
Proof.
  split; [apply stripHtml_length | apply census_stripHtml_length].
Qed.

(** X7: a page of at most ten code units parses to a record without provisions
    and without definitions. *)
Theorem parse_short_page_empty (html : jsstr) (act : ActIndexEntry.t) :
  List.length html <= 10 ->
  ParsedAct.provisions (parsePhilippineHtml html act) = [] /\
  ParsedAct.definitions (parsePhilippineHtml html act) = [].
Proof.
  intro Hlen.
  assert (Hp : provisions (raw_scan html) = []).
  { destruct (provisions (raw_scan html)) as [|p ps] eqn:E; [reflexivity|].
    exfalso. assert (Hin : In p (provisions (raw_scan html))) by (rewrite E; left; reflexivity).
    apply raw_scan_long in Hin as (pre & s & rest & _ & Hl & _).
    rewrite candidate_text_eq in Hl.
    pose proof (stripHtml_length (substring (bodyHtml_of html) (SectionStart.index s)
                                    (next_start (bodyHtml_of html) rest))) as H1.
    rewrite substring_length in H1.
    pose proof (bodyHtml_of_length html). lia. }
  assert (Hd : definitions (raw_scan html) = []).
  { destruct (definitions (raw_scan html)) as [|d ds] eqn:E; [reflexivity|].
    exfalso. assert (Hin : In d (definitions (raw_scan html))) by (rewrite E; left; reflexivity).
    destruct (raw_scan_resolve html d Hin) as (p & Hpin & _).
    rewrite Hp in Hpin. exact Hpin. }
  rewrite parse_provisions_eq, parse_definitions_eq, Hp, Hd. split; reflexivity.
Qed.

Lemma parse_short_page_empty_witness :
  List.length short_page <= 10 /\
  ParsedAct.provisions (parsePhilippineHtml short_page sample_act) = [] /\
  ParsedAct.definitions (parsePhilippineHtml short_page sample_act) = [].
Proof.
  assert (H : List.length short_page <= 10) by (vm_compute; apply le_n).
  split; [exact H | exact (parse_short_page_empty short_page sample_act H)].
Defined.

(** X8: every provision of a parsed record carries the non-empty designation
    of one of the section headings found in the page body, its reference is
    "sec" followed by that designation in lower case, and its chapter is
    either absent or the non-empty name of a chapter heading of the body. *)
Theorem parse_provision_fields (html : jsstr) (act : ActIndexEntry.t)
  (p : ParsedProvision.t) :
  In p (ParsedAct.provisions (parsePhilippineHtml html act)) ->
  (exists s, In s (sectionStarts_of (bodyHtml_of html)) /\
     ParsedProvision.section p = SectionStart.sectionNum s) /\
  ParsedProvision.section p <> [] /\
  ParsedProvision.provision_ref p = lit "sec" ++ toLowerCase (ParsedProvision.section p) /\
  (ParsedProvision.chapter p = None \/
   exists ch, In ch (chapters_of (bodyHtml_of html)) /\
     ParsedProvision.chapter p = Some (Chapter.name ch) /\ Chapter.name ch <> []).
Proof.
  rewrite parse_provisions_eq. intro Hp.
  apply keep_longest_values_in, raw_scan_fields in Hp.
  destruct Hp as (s & Hs & Hsec & Href & Hch).
  split; [exists s; split; assumption|].
  split; [rewrite Hsec; exact (sectionStarts_nonempty _ s Hs)|].
  split; [rewrite Hsec; exact Href | exact Hch].
Qed.

Lemma parse_provision_fields_witness :
  In chapter_page_provision
     (ParsedAct.provisions (parsePhilippineHtml chapter_page sample_act)) /\
  ParsedProvision.chapter chapter_page_provision <> None /\
  (exists s, In s (sectionStarts_of (bodyHtml_of chapter_page)) /\
     ParsedProvision.section chapter_page_provision = SectionStart.sectionNum s) /\
  ParsedProvision.section chapter_page_provision <> [] /\
  ParsedProvision.provision_ref chapter_page_provision =
    lit "sec" ++ toLowerCase (ParsedProvision.section chapter_page_provision) /\
  (ParsedProvision.chapter chapter_page_provision = None \/
   exists ch, In ch (chapters_of (bodyHtml_of chapter_page)) /\
     ParsedProvision.chapter chapter_page_provision = Some (Chapter.name ch) /\
     Chapter.name ch <> []).
Proof.
  assert (H : In chapter_page_provision
                (ParsedAct.provisions (parsePhilippineHtml chapter_page sample_act)))
    by (vm_compute; left; reflexivity).
  split; [exact H|]. split; [vm_compute; discriminate|].
  exact (parse_provision_fields chapter_page sample_act chapter_page_provision H).
Defined.

(** X9: every definition of a parsed record has a term of 1 to 99 code units
    and a definition text of 6 to 4,000 code units. *)
Theorem parse_definition_bounds (html : jsstr) (act : ActIndexEntry.t)
  (d : ParsedDefinition.t) :
  In d (ParsedAct.definitions (parsePhilippineHtml html act)) ->
  0 < List.length (ParsedDefinition.term d) < 100 /\
  5 < List.length (ParsedDefinition.definition d) <= 4000.
Proof.
  rewrite parse_definitions_eq. intro Hd.
  apply keep_longest_values_in in Hd.
  refine (section_loop_defs
            (fun d => 0 < List.length (ParsedDefinition.term d) < 100 /\
                      5 < List.length (ParsedDefinition.definition d) <= 4000)
            definition_of_match_bounds _ _ _ _ _ d Hd).
  intros d' [].
Qed.

Lemma parse_definition_bounds_witness :
  In chapter_page_definition
     (ParsedAct.definitions (parsePhilippineHtml chapter_page sample_act)) /\
  0 < List.length (ParsedDefinition.term chapter_page_definition) < 100 /\
  5 < List.length (ParsedDefinition.definition chapter_page_definition) <= 4000.
Proof.
  assert (H : In chapter_page_definition
                (ParsedAct.definitions (parsePhilippineHtml chapter_page sample_act)))
    by (vm_compute; left; reflexivity).
  split; [exact H | exact (parse_definition_bounds chapter_page sample_act _ H)].
Defined.

(** ** The enumerator: order, counts and identifiers of its output *)

Lemma parseIndexPage_rows (html : jsstr) (l : CensusLaw.t) :
  In l (parseIndexPage html) ->
  CensusLaw.id l = raToId (CensusLaw.raNumber l) /\ is_ra l = true /\
  CensusLaw.classification l = ingestable.
Proof.
  unfold parseIndexPage. intro H. apply collect_laws_in, in_map_iff in H as (m & <- & _).
  split; [reflexivity | split; reflexivity].
Qed.







Lemma insert_sorted_end (x : CensusLaw.t) (l : list CensusLaw.t) :
  Forall (fun y => census_cmp y x <= 0)%Z l -> insert_sorted x l = l ++ [x].
Proof.
  induction 1 as [|y t Hy _ IH]; cbn [insert_sorted app]; [reflexivity|].
  destruct (0 <? census_cmp y x)%Z eqn:E; [apply Z.ltb_lt in E; lia|].
  rewrite IH. reflexivity.
Qed.

Lemma sort_laws_specials (ras : list CensusLaw.t) :
  Forall (fun y => is_ra y = true) ras ->
  sort_laws (ras ++ [constitution_1987; revised_penal_code]) =
  sort_laws ras ++ [constitution_1987; revised_penal_code].
Proof.
  intro H. unfold sort_laws at 1. rewrite fold_left_app. fold (sort_laws ras).
  assert (HS : Forall (fun y => is_ra y = true) (sort_laws ras)).
  { apply Forall_forall. intros y Hy.
    apply (Permutation_in _ (sort_laws_perm ras)) in Hy.
    exact (proj1 (Forall_forall _ _) H y Hy). }
  generalize (sort_laws ras) HS. clear H HS. intros S HS. cbn [fold_left].
  assert (Hc : forall y, is_ra y = true -> forall z, is_ra z = false -> (census_cmp y z <= 0)%Z).
  { intros y Hy z Hz. unfold census_cmp. rewrite Hy, Hz. cbn [negb andb]. lia. }
  rewrite (insert_sorted_end constitution_1987 S).
  2:{ apply Forall_forall. intros y Hy. apply Hc; [exact (proj1 (Forall_forall _ _) HS y Hy)|reflexivity]. }
  rewrite (insert_sorted_end revised_penal_code (S ++ [constitution_1987])).
  2:{ apply Forall_app. split.
      - apply Forall_forall. intros y Hy. apply Hc; [exact (proj1 (Forall_forall _ _) HS y Hy)|reflexivity].
      - constructor; [apply Z.leb_le; vm_compute; reflexivity | constructor]. }
  rewrite <- app_assoc. reflexivity.
Qed.

Lemma census_laws_layout (index : FetchResult.t) :
  FetchResult.status index = 200%Z ->
  census_laws index =
    Some (sort_laws (parseIndexPage (FetchResult.body index)) ++
          [constitution_1987; revised_penal_code]) /\
  Forall (fun y => is_ra y = true) (parseIndexPage (FetchResult.body index)).
Proof.
  intro Hs.
  assert (Hra : Forall (fun y => is_ra y = true) (parseIndexPage (FetchResult.body index)))
    by (apply Forall_forall; intros y Hy; apply (parseIndexPage_rows _ y Hy)).
  split; [|exact Hra].
  unfold census_laws. rewrite Hs, Z.eqb_refl. f_equal. apply sort_laws_specials, Hra.
Qed.


Lemma filter_all_true {A} (f : A -> bool) (l : list A) :
  (forall x, In x l -> f x = true) -> filter f l = l.
Proof.
  intro H. rewrite (filter_ext_in f (fun _ => true)); [apply filter_true|]. exact H.
Qed.

Lemma filter_all_false {A} (f : A -> bool) (l : list A) :
  (forall x, In x l -> f x = false) -> filter f l = [].
Proof.
  intro H. rewrite (filter_ext_in f (fun _ => false)); [apply filter_false|]. exact H.
Qed.

Lemma fold_min_spec (t : list N) :
  forall y, (fold_left N.min t y <= y)%N /\
  (forall z, In z t -> fold_left N.min t y <= z)%N /\ In (fold_left N.min t y) (y :: t).
Proof.
  induction t as [|z t IH]; intro y; cbn [fold_left].
  - split; [lia | split; [intros z []|left; reflexivity]].
  - destruct (IH (N.min y z)) as (H1 & H2 & H3). split; [lia|]. split.
    + intros u [<-|Hu]; [lia | apply H2, Hu].
    + destruct H3 as [H3|H3]; [|right; right; exact H3].
      rewrite <- H3. destruct (N.min_dec y z) as [->| ->]; [left|right; left]; reflexivity.
Qed.

Lemma fold_max_spec (t : list N) :
  forall y, (y <= fold_left N.max t y)%N /\
  (forall z, In z t -> z <= fold_left N.max t y)%N /\ In (fold_left N.max t y) (y :: t).
Proof.
  induction t as [|z t IH]; intro y; cbn [fold_left].
  - split; [lia | split; [intros z []|left; reflexivity]].
  - destruct (IH (N.max y z)) as (H1 & H2 & H3). split; [lia|]. split.
    + intros u [<-|Hu]; [lia | apply H2, Hu].
    + destruct H3 as [H3|H3]; [|right; right; exact H3].
      rewrite <- H3. destruct (N.max_dec y z) as [->| ->]; [left|right; left]; reflexivity.
Qed.

Lemma census_years_in (laws : list CensusLaw.t) (y : N) :
  In y (census_years laws) <-> exists l, In l laws /\ is_ra l = true /\ CensusLaw.year l = y.
Proof.
  unfold census_years. rewrite in_map_iff. split.
  - intros (l & <- & Hl). apply filter_In in Hl as [Hl Hr]. exists l. auto.
  - intros (l & Hl & Hr & <-). exists l. split; [reflexivity|]. apply filter_In. auto.
Qed.



(** X11: when the index page is fetched with status 200, the statistics count
    every law written, as many Republic Acts as [parseIndexPage] returns and
    exactly two special entries; every law is classified ingestable and none
    inaccessible or metadata-only. *)
Theorem census_stats_counts (index : FetchResult.t) :
  FetchResult.status index = 200%Z ->
  exists st laws, census_main index = Some (st, laws) /\
    CensusStats.total st = List.length laws /\
    CensusStats.republic_acts st = List.length (parseIndexPage (FetchResult.body index)) /\
    CensusStats.special_entries st = 2 /\
    CensusStats.total st = CensusStats.republic_acts st + CensusStats.special_entries st /\
    CensusStats.class_ingestable st = CensusStats.total st /\
    CensusStats.class_inaccessible st = 0 /\
    CensusStats.class_metadata_only st = 0.
Proof.
  intro Hs. destruct (census_laws_layout index Hs) as [Hl Hra].
  set (ras := parseIndexPage (FetchResult.body index)) in *.
  set (S := sort_laws ras) in *.
  assert (HS : forall y, In y S -> is_ra y = true /\ CensusLaw.classification y = ingestable).
  { intros y Hy. apply (Permutation_in _ (sort_laws_perm ras)) in Hy.
    destruct (parseIndexPage_rows _ y Hy) as (_ & H1 & H2). auto. }
  assert (Hlen : List.length S = List.length ras)
    by apply (Permutation_length (sort_laws_perm ras)).
  exists (census_stats (S ++ [constitution_1987; revised_penal_code])),
    (S ++ [constitution_1987; revised_penal_code]).
  split; [unfold census_main; rewrite Hl; reflexivity|].
  unfold census_stats, count_class.
  cbn [CensusStats.total CensusStats.republic_acts CensusStats.special_entries
       CensusStats.class_ingestable CensusStats.class_inaccessible CensusStats.class_metadata_only].
  rewrite !filter_app.
  rewrite (filter_all_true is_ra S) by (intros y Hy; apply HS, Hy).
  rewrite (filter_all_false (fun l => negb (is_ra l)) S)
    by (intros y Hy; rewrite (proj1 (HS y Hy)); reflexivity).
  rewrite (filter_all_true (fun l => classification_eqb (CensusLaw.classification l) ingestable) S)
    by (intros y Hy; rewrite (proj2 (HS y Hy)); reflexivity).
  rewrite (filter_all_false (fun l => classification_eqb (CensusLaw.classification l) inaccessible) S)
    by (intros y Hy; rewrite (proj2 (HS y Hy)); reflexivity).
  rewrite (filter_all_false (fun l => classification_eqb (CensusLaw.classification l) metadata_only) S)
    by (intros y Hy; rewrite (proj2 (HS y Hy)); reflexivity).
  cbn [filter is_ra classification_eqb negb constitution_1987 revised_penal_code
       CensusLaw.category CensusLaw.classification app].
  rewrite !length_app. cbn [List.length]. lia.
Qed.

Lemma census_stats_counts_witness :
  FetchResult.status index_response = 200%Z /\
  exists st laws, census_main index_response = Some (st, laws) /\
    CensusStats.total st = List.length laws /\
    CensusStats.republic_acts st =
      List.length (parseIndexPage (FetchResult.body index_response)) /\
    CensusStats.special_entries st = 2 /\
    CensusStats.total st = CensusStats.republic_acts st + CensusStats.special_entries st /\
    CensusStats.class_ingestable st = CensusStats.total st /\
    CensusStats.class_inaccessible st = 0 /\
    CensusStats.class_metadata_only st = 0.
Proof.
  assert (H : FetchResult.status index_response = 200%Z) by reflexivity.
  split; [exact H | exact (census_stats_counts index_response H)].
Defined.



(** X13: the year range of the statistics is "lo-hi" where every Republic
    Act written has its year between lo and hi, lo and hi are the years of
    Republic Acts written when there is one, and both are 0 when there is
    none. *)
Theorem census_year_range (index : FetchResult.t) (st : CensusStats.t)
  (laws : list CensusLaw.t) :
  census_main index = Some (st, laws) ->
  exists lo hi,
    CensusStats.year_range st = N_to_jsstr lo ++ lit "-" ++ N_to_jsstr hi /\
    (forall l, In l laws -> is_ra l = true -> (lo <= CensusLaw.year l <= hi)%N) /\
    ((exists l, In l laws /\ is_ra l = true) ->
     (exists a, In a laws /\ is_ra a = true /\ CensusLaw.year a = lo) /\
     (exists b, In b laws /\ is_ra b = true /\ CensusLaw.year b = hi)) /\
    ((forall l, In l laws -> is_ra l = false) -> lo = 0%N /\ hi = 0%N).
Proof.
  unfold census_main. destruct (census_laws index) as [ls|]; [|discriminate].
  intro H. injection H as <- <-.
  exists (min_year (census_years ls)), (max_year (census_years ls)).
  split; [reflexivity|].
  destruct (census_years ls) as [|y t] eqn:E.
  - cbn [min_year max_year]. split.
    + intros l Hl Hr. exfalso.
      assert (Hy : In (CensusLaw.year l) (census_years ls))
        by (apply census_years_in; exists l; auto).
      rewrite E in Hy. exact Hy.
    + split; [|intros _; split; reflexivity].
      intros (l & Hl & Hr). exfalso.
      assert (Hy : In (CensusLaw.year l) (census_years ls))
        by (apply census_years_in; exists l; auto).
      rewrite E in Hy. exact Hy.
  - cbn [min_year max_year].
    destruct (fold_min_spec t y) as (Mn1 & Mn2 & Mn3).
    destruct (fold_max_spec t y) as (Mx1 & Mx2 & Mx3).
    split; [|split].
    + intros l Hl Hr.
      assert (Hy : In (CensusLaw.year l) (census_years ls))
        by (apply census_years_in; exists l; auto).
      rewrite E in Hy. destruct Hy as [<-|Hy]; [lia|].
      specialize (Mn2 _ Hy). specialize (Mx2 _ Hy). lia.
    + intros _. rewrite <- E in Mn3, Mx3.
      apply census_years_in in Mn3, Mx3. split; assumption.
    + intros Hnone. exfalso.
      assert (Hy : In y (census_years ls)) by (rewrite E; left; reflexivity).
      apply census_years_in in Hy as (l & Hl & Hr & _).
      rewrite (Hnone l Hl) in Hr. discriminate Hr.
Qed.

Lemma census_year_range_witness :
  census_main index_response = Some (census_stats index_laws, index_laws) /\
  CensusStats.year_range (census_stats index_laws) = lit "2001-2024" /\
  exists lo hi,
    CensusStats.year_range (census_stats index_laws) = N_to_jsstr lo ++ lit "-" ++ N_to_jsstr hi /\
    (forall l, In l index_laws -> is_ra l = true -> (lo <= CensusLaw.year l <= hi)%N) /\
    ((exists l, In l index_laws /\ is_ra l = true) ->
     (exists a, In a index_laws /\ is_ra a = true /\ CensusLaw.year a = lo) /\
     (exists b, In b index_laws /\ is_ra b = true /\ CensusLaw.year b = hi)) /\
    ((forall l, In l index_laws -> is_ra l = false) -> lo = 0%N /\ hi = 0%N).
Proof.
  assert (H : census_main index_response = Some (census_stats index_laws, index_laws))
    by (vm_compute; reflexivity).
  split; [exact H|]. split; [vm_compute; reflexivity|].
  exact (census_year_range index_response _ _ H).
Defined.

(** ** The orchestrator: report counters, requests and the file caches *)

Section IngestMore.

Variable net : nat -> jsstr -> Z * net_outcome.
Variable late : nat -> Z.

Lemma fetch_html_shape (act : ActIndexEntry.t) (s : stats) (w : world) :
  exists r w', fetch_html net late act s w = (Ok r, w') /\
    requests w' = requests (snd (fetchWithRateLimit net late (ActIndexEntry.url act) 3 w)) /\
    match r with
    | inl s' => exists o, s' = record_act s act 0 0 o (outcome_cached o) (outcome_failed o) 1
    | inr _ => True
    end.
Proof.
  unfold fetch_html, try_catch, bind.
  destruct (fetchWithRateLimit net late (ActIndexEntry.url act) 3 w) as [[f|e] w1] eqn:E.
  - destruct (FetchResult.status f =? 200)%Z.
    + unfold modify, ret. eexists (inr _), _. split; [reflexivity|].
      split; [reflexivity | exact I].
    + unfold fallback, bind, modify, ret. eexists (inl _), _. split; [reflexivity|].
      split; [reflexivity|]. exists (HttpFallback (FetchResult.status f)). reflexivity.
  - unfold fallback, bind, modify, ret. eexists (inl _), _. split; [reflexivity|].
    split; [reflexivity|]. exists FetchFailedFallback. reflexivity.
Qed.

Lemma obtain_html_shape (act : ActIndexEntry.t) (skipFetch : bool) (s : stats) (w : world) :
  exists r w', obtain_html net late act skipFetch s w = (Ok r, w') /\
    match r with
    | inl s' => exists o, s' = record_act s act 0 0 o (outcome_cached o) (outcome_failed o) 1
    | inr _ => True
    end.
Proof.
  unfold obtain_html, bind at 1, get. cbv beta iota.
  destruct (map_get (ActIndexEntry.id act) (sources w)) as [html|];
    [destruct skipFetch|].
  - exists (inr html), w. split; [reflexivity | exact I].
  - destruct (fetch_html_shape act s w) as (r & w' & E & _ & H). exists r, w'. auto.
  - destruct (fetch_html_shape act s w) as (r & w' & E & _ & H). exists r, w'. auto.
Qed.

(** Every act adds one row to the report and counts as processed; it counts
    as skipped when its outcome is a cached seed, as failed when it is a
    fallback seed. *)
Lemma process_act_shape (skipFetch : bool) (s : stats) (act : ActIndexEntry.t) (w : world) :
  exists np nd o w', process_act net late skipFetch s act w =
    (Ok (record_act s act np nd o (outcome_cached o) (outcome_failed o) 1), w').
Proof.
  unfold process_act, bind at 1, get. cbv beta iota.
  destruct (if skipFetch then map_get (ActIndexEntry.id act) (seeds w) else None)
    as [existing|].
  - eexists _, _, Cached, _. reflexivity.
  - destruct (obtain_html_shape act skipFetch s w) as (r & w1 & E & H).
    unfold bind at 1. rewrite E.
    destruct r as [s'|html].
    + destruct H as (o & ->). eexists _, _, o, _. reflexivity.
    + eexists _, _, Parsed, _. reflexivity.
Qed.

Lemma process_acts_shape (skipFetch : bool) (acts : list ActIndexEntry.t) :
  forall s w, exists s' w' rows,
    process_acts net late skipFetch s acts w = (Ok s', w') /\
    results s' = results s ++ rows /\
    map row_act rows = map ActIndexEntry.shortName acts /\
    processed s' = processed s + List.length acts /\
    skipped s' = skipped s + list_sum (map (fun r => outcome_cached (row_status r)) rows) /\
    failed s' = failed s + list_sum (map (fun r => outcome_failed (row_status r)) rows) /\
    totalProvisions s' = totalProvisions s + list_sum (map row_provisions rows) /\
    totalDefinitions s' = totalDefinitions s + list_sum (map row_definitions rows).
Proof.
  induction acts as [|act acts IH]; intros s w.
  - exists s, w, []. split; [reflexivity|]. split; [symmetry; apply app_nil_r|].
    cbn [fold_right map list_sum List.length]. repeat split; lia.
  - destruct (process_act_shape skipFetch s act w) as (np & nd & o & w1 & E1).
    destruct (IH (record_act s act np nd o (outcome_cached o) (outcome_failed o) 1) w1)
      as (s2 & w2 & rows & E2 & Hr & Hm & Hp & Hs & Hf & Htp & Htd).
    exists s2, w2, ((ActIndexEntry.shortName act, np, nd, o) :: rows).
    split; [cbn [process_acts]; rewrite (bind_ok _ _ _ _ _ E1); exact E2|].
    unfold record_act in Hr, Hp, Hs, Hf, Htp, Htd.
    cbn [results processed skipped failed totalProvisions totalDefinitions] in Hr, Hp, Hs, Hf, Htp, Htd.
    split; [rewrite Hr, <- app_assoc; reflexivity|].
    split; [cbn [map]; rewrite Hm; reflexivity|].
    unfold list_sum in *.
    cbn [fold_right map list_sum List.length row_act row_status row_provisions row_definitions fst snd].
    repeat split; lia.
Qed.

Lemma outcome_counts_le (rows : list (jsstr * nat * nat * act_outcome)) :
  list_sum (map (fun r => outcome_cached (row_status r)) rows) +
  list_sum (map (fun r => outcome_failed (row_status r)) rows) <= List.length rows.
Proof.
  unfold list_sum. induction rows as [|r rows IH]; cbn [fold_right map List.length]; [lia|].
  destruct (row_status r); cbn [outcome_cached outcome_failed]; lia.
Qed.



(** Under [--skip-fetch] an act with a seed or a source file is settled from
    the files. *)
Lemma process_act_skip_cached (s : stats) (act : ActIndexEntry.t) (w : world) :
  has_cache w act ->
  exists s' w', process_act net late true s act w = (Ok s', w') /\
    requests w' = requests w /\ clock w' = clock w /\
    lastRequestTime w' = lastRequestTime w /\ sources w' = sources w /\
    failed s' = failed s /\
    (forall k, map_get k (seeds w) <> None -> map_get k (seeds w') <> None).
Proof.
  intro Hc. unfold process_act, bind at 1, get. cbv beta iota.
  destruct (map_get (ActIndexEntry.id act) (seeds w)) as [existing|] eqn:Es.
  - eexists _, _. split; [reflexivity|]. unfold record_act. cbn [failed].
    repeat split; auto; lia.
  - destruct Hc as [Hc|Hc]; [contradiction|].
    destruct (map_get (ActIndexEntry.id act) (sources w)) as [html|] eqn:Eh; [|contradiction].
    assert (Eo : obtain_html net late act true s w = (Ok (inr html), w)).
    { unfold obtain_html, bind, get. rewrite Eh. reflexivity. }
    unfold bind at 1. rewrite Eo. unfold bind, modify, ret.
    eexists _, _. split; [reflexivity|]. wsimpl. unfold record_act. cbn [failed].
    repeat split; [lia|]. intros k Hk. rewrite map_get_set.
    destruct (jsstr_eqb k (ActIndexEntry.id act)); [discriminate | exact Hk].
Qed.

Lemma process_acts_skip_cached (acts : list ActIndexEntry.t) :
  forall s w, (forall act, In act acts -> has_cache w act) ->
  exists s' w', process_acts net late true s acts w = (Ok s', w') /\
    requests w' = requests w /\ clock w' = clock w /\
    lastRequestTime w' = lastRequestTime w /\ sources w' = sources w /\
    failed s' = failed s.
Proof.
  induction acts as [|act acts IH]; intros s w Hc.
  - exists s, w. repeat split; reflexivity.
  - destruct (process_act_skip_cached s act w (Hc act (or_introl eq_refl)))
      as (s1 & w1 & E1 & Hr & Hk & Hl & Hsrc & Hf & Hseeds).
    destruct (IH s1 w1) as (s2 & w2 & E2 & Hr2 & Hk2 & Hl2 & Hsrc2 & Hf2).
    + intros a Ha. destruct (Hc a (or_intror Ha)) as [H|H]; [left; apply Hseeds, H|].
      right. rewrite Hsrc. exact H.
    + exists s2, w2. split; [cbn [process_acts]; rewrite (bind_ok _ _ _ _ _ E1); exact E2|].
      repeat split; congruence.
Qed.

End IngestMore.

(** X14: a run of the orchestrator, with or without [--skip-fetch], never
    aborts; its report has one row per act, in the order of the acts, and its
    counters agree with the rows: processed is the number of acts, skipped
    the number of cached rows, failed the number of fallback rows, and the
    totals are the sums of the rows' provision and definition counts. *)
Theorem ingest_report_counters (net : nat -> jsstr -> Z * net_outcome) (late : nat -> Z)
  (acts : list ActIndexEntry.t) (skipFetch : bool) (w : world) :
  exists s' w', fetchAndParseActs net late acts skipFetch w = (Ok s', w') /\
    map row_act (results s') = map ActIndexEntry.shortName acts /\
    processed s' = List.length acts /\
    skipped s' = list_sum (map (fun r => outcome_cached (row_status r)) (results s')) /\
    failed s' = list_sum (map (fun r => outcome_failed (row_status r)) (results s')) /\
    totalProvisions s' = list_sum (map row_provisions (results s')) /\
    totalDefinitions s' = list_sum (map row_definitions (results s')) /\
    skipped s' + failed s' <= processed s'.
Proof.
  destruct (process_acts_shape net late skipFetch acts stats0 w)
    as (s' & w' & rows & E & Hr & Hm & Hp & Hs & Hf & Htp & Htd).
  exists s', w'. split; [exact E|].
  cbn [results processed skipped failed totalProvisions totalDefinitions stats0 app] in *.
  rewrite Hr. split; [exact Hm|].
  pose proof (outcome_counts_le rows) as Hle.
  assert (Hlen : List.length rows = List.length acts)
    by (rewrite <- (length_map row_act rows), Hm; apply length_map).
  repeat split; lia.
Qed.


(** X16: under [--skip-fetch], when every act has a seed file or a source
    file, the run sends no request, leaves the clock, the fetcher state and
    the source files as they were, and reports no failure. *)
Theorem skip_fetch_offline (net : nat -> jsstr -> Z * net_outcome) (late : nat -> Z)
  (acts : list ActIndexEntry.t) (w : world) :
  (forall act, In act acts ->
     map_get (ActIndexEntry.id act) (seeds w) <> None \/
     map_get (ActIndexEntry.id act) (sources w) <> None) ->
  exists s' w', fetchAndParseActs net late acts true w = (Ok s', w') /\
    requests w' = requests w /\ clock w' = clock w /\
    lastRequestTime w' = lastRequestTime w /\ sources w' = sources w /\
    failed s' = 0.
Proof.
  intro Hc. exact (process_acts_skip_cached net late acts stats0 w Hc).
Qed.

Lemma skip_fetch_offline_witness :
  (forall act, In act [sample_act] ->
     map_get (ActIndexEntry.id act) (seeds cached_world) <> None \/
     map_get (ActIndexEntry.id act) (sources cached_world) <> None) /\
  exists s' w', fetchAndParseActs always_503 no_delay [sample_act] true cached_world =
      (Ok s', w') /\
    requests w' = requests cached_world /\ clock w' = clock cached_world /\
    lastRequestTime w' = lastRequestTime cached_world /\
    sources w' = sources cached_world /\ failed s' = 0.
Proof.
  assert (H : forall act, In act [sample_act] ->
     map_get (ActIndexEntry.id act) (seeds cached_world) <> None \/
     map_get (ActIndexEntry.id act) (sources cached_world) <> None).
  { intros act [<-|[]]. right. vm_compute. discriminate. }
  split; [exact H | exact (skip_fetch_offline always_503 no_delay [sample_act] cached_world H)].
Defined.

(** X17: in a run without [--skip-fetch], when the fetch of an act answers
    with status 200, the act's source file then holds the body of the
    response, its seed file holds the record parsed from that body, and the
    act's row reports the record's provision and definition counts with the
    status OK. *)
Theorem fetch_ok_caches (net : nat -> jsstr -> Z * net_outcome) (late : nat -> Z)
  (s : stats) (act : ActIndexEntry.t) (w : world) (f : FetchResult.t) (w1 : world) :
  fetchWithRateLimit net late (ActIndexEntry.url act) 3 w = (Ok f, w1) ->
  FetchResult.status f = 200%Z ->
  exists s' w', process_act net late false s act w = (Ok s', w') /\
    map_get (ActIndexEntry.id act) (sources w') = Some (FetchResult.body f) /\
    map_get (ActIndexEntry.id act) (seeds w') =
      Some (parsePhilippineHtml (FetchResult.body f) act) /\
    results s' = results s ++
      [(ActIndexEntry.shortName act,
        List.length (ParsedAct.provisions (parsePhilippineHtml (FetchResult.body f) act)),
        List.length (ParsedAct.definitions (parsePhilippineHtml (FetchResult.body f) act)),
        Parsed)].
Proof.
  intros E Es.
  assert (Eo : obtain_html net late act false s w = fetch_html net late act s w).
  { unfold obtain_html, bind, get. destruct (map_get _ _); reflexivity. }
  unfold process_act, bind at 1, get. cbv beta iota.
  unfold bind at 1. rewrite Eo, (fetch_html_ok net late act s w f w1 E Es).
  unfold bind, modify, ret. eexists _, _. split; [reflexivity|]. wsimpl.
  rewrite !map_get_set, jsstr_eqb_refl. split; [reflexivity|]. split; reflexivity.
Qed.

Lemma fetch_ok_caches_witness :
  fetchWithRateLimit always_200 no_delay (ActIndexEntry.url sample_act) 3 empty_world =
    (Ok ok_fetch, ok_fetch_world) /\
  FetchResult.status ok_fetch = 200%Z /\
  exists s' w', process_act always_200 no_delay false stats0 sample_act empty_world =
      (Ok s', w') /\
    map_get (ActIndexEntry.id sample_act) (sources w') = Some (FetchResult.body ok_fetch) /\
    map_get (ActIndexEntry.id sample_act) (seeds w') =
      Some (parsePhilippineHtml (FetchResult.body ok_fetch) sample_act) /\
    results s' = results stats0 ++
      [(ActIndexEntry.shortName sample_act,
        List.length (ParsedAct.provisions (parsePhilippineHtml (FetchResult.body ok_fetch) sample_act)),
        List.length (ParsedAct.definitions (parsePhilippineHtml (FetchResult.body ok_fetch) sample_act)),
        Parsed)].
Proof.
  assert (E : fetchWithRateLimit always_200 no_delay (ActIndexEntry.url sample_act) 3
                empty_world = (Ok ok_fetch, ok_fetch_world)) by (vm_compute; reflexivity).
  assert (Es : FetchResult.status ok_fetch = 200%Z) by reflexivity.
  split; [exact E|]. split; [exact Es|].
  exact (fetch_ok_caches always_200 no_delay stats0 sample_act empty_world ok_fetch
           ok_fetch_world E Es).
Defined.

(** ** The command line of the orchestrator *)

Lemma parseArgs_loop_no_limit (args : list jsstr) :
  forall limit skipFetch, ~ In (lit "--limit") args ->
  parseArgs_loop args limit skipFetch =
    (limit, skipFetch || existsb (fun a => jsstr_eqb a (lit "--skip-fetch")) args).
Proof.
  induction args as [|a rest IH]; intros limit skipFetch Hn; cbn [parseArgs_loop existsb].
  - rewrite orb_false_r. reflexivity.
  - assert (Ha : jsstr_eqb a (lit "--limit") = false)
      by (apply jsstr_eqb_neq; intro E; apply Hn; left; exact E).
    assert (Hr : ~ In (lit "--limit") rest) by (intro H; apply Hn; right; exact H).
    assert (Hother : (if jsstr_eqb a (lit "--skip-fetch")
                      then parseArgs_loop rest limit true
                      else parseArgs_loop rest limit skipFetch) =
                     (limit, skipFetch || (jsstr_eqb a (lit "--skip-fetch") ||
                        existsb (fun a => jsstr_eqb a (lit "--skip-fetch")) rest))).
    { destruct (jsstr_eqb a (lit "--skip-fetch")); rewrite IH by exact Hr;
        [rewrite orb_true_r | rewrite orb_false_l]; reflexivity. }
    destruct rest as [|v rest']; [exact Hother|].
    rewrite Ha. cbn [andb]. exact Hother.
Qed.

(** X18: without a "--limit" argument, [parseArgs] leaves the limit null, and
    [skipFetch] holds exactly when some argument is "--skip-fetch". *)
Theorem parseArgs_without_limit (args : list jsstr) :
  ~ In (lit "--limit") args ->
  parseArgs args =
    (LimitNull, existsb (fun a => jsstr_eqb a (lit "--skip-fetch")) args).
Proof.
  intro Hn. unfold parseArgs. rewrite parseArgs_loop_no_limit by exact Hn. reflexivity.
Qed.

Lemma parseArgs_without_limit_witness :
  ~ In (lit "--limit") [lit "--skip-fetch"; lit "10"] /\
  parseArgs [lit "--skip-fetch"; lit "10"] =
    (LimitNull, existsb (fun a => jsstr_eqb a (lit "--skip-fetch"))
                  [lit "--skip-fetch"; lit "10"]).
Proof.
  assert (H : ~ In (lit "--limit") [lit "--skip-fetch"; lit "10"])
    by (intros [H|[H|[]]]; discriminate H).
  split; [exact H | exact (parseArgs_without_limit _ H)].
Defined.

(** X19: "--limit" followed by a non-empty argument [v] consumes [v]: the
    limit is [parseInt(v, 10)] (NaN when [v] does not start with a number,
    even when [v] is "--skip-fetch"), and [skipFetch] is set only by a
    "--skip-fetch" among the arguments after [v]. *)
Theorem parseArgs_limit_value (v : jsstr) (rest : list jsstr) :
  v <> [] -> ~ In (lit "--limit") rest ->
  parseArgs (lit "--limit" :: v :: rest) =
    (limit_of_parse (parseInt10 v),
     existsb (fun a => jsstr_eqb a (lit "--skip-fetch")) rest).
Proof.
  intros Hv Hn. unfold parseArgs. cbn [parseArgs_loop].
  rewrite jsstr_eqb_refl, (jsstr_eqb_neq v []) by exact Hv. cbn [andb negb].
  rewrite parseArgs_loop_no_limit by exact Hn. reflexivity.
Qed.

Lemma parseArgs_limit_value_witness :
  lit "--skip-fetch" <> [] /\ ~ In (lit "--limit") [lit "5"] /\
  parseArgs [lit "--limit"; lit "--skip-fetch"; lit "5"] = (LimitNaN, false) /\
  parseArgs [lit "--limit"; lit "--skip-fetch"; lit "5"] =
    (limit_of_parse (parseInt10 (lit "--skip-fetch")),
     existsb (fun a => jsstr_eqb a (lit "--skip-fetch")) [lit "5"]).
Proof.
  assert (H1 : lit "--skip-fetch" <> []) by discriminate.
  assert (H2 : ~ In (lit "--limit") [lit "5"]) by (intros [H|[]]; discriminate H).
  split; [exact H1|]. split; [exact H2|]. split; [vm_compute; reflexivity|].
  exact (parseArgs_limit_value (lit "--skip-fetch") [lit "5"] H1 H2).
Defined.

(** ** Numbers written by template literals and read by [parseInt] *)

Lemma uint_digits_fold (d : Decimal.uint) (acc : positive) :
  fold_left digit_step (lit (NilEmpty.string_of_uint d)) (Npos acc) =
  Npos (Pos.of_uint_acc d acc).
Proof.
  revert acc; induction d; intro acc; cbn -[N.mul N.add Pos.mul Pos.add]; try reflexivity;
  rewrite <- IHd; f_equal; unfold digit_step; cbn [N_of_ascii]; lia.
Qed.

Lemma uint_digits_of_uint (d : Decimal.uint) :
  fold_left digit_step (lit (NilEmpty.string_of_uint d)) 0%N = Pos.of_uint d.
Proof.
  induction d; cbn -[N.mul N.add Pos.mul Pos.add]; try reflexivity;
  try exact IHd; rewrite <- uint_digits_fold; reflexivity.
Qed.

Lemma uint_digits_all (d : Decimal.uint) :
  forallb is_digit (lit (NilEmpty.string_of_uint d)) = true.
Proof. induction d; cbn; try reflexivity; exact IHd. Qed.

Lemma take_while_all (p : jschar -> bool) (s : jsstr) :
  forallb p s = true -> take_while p s = s.
Proof.
  induction s as [|c t IH]; cbn; [reflexivity|].
  intro H. apply andb_prop in H as [H1 H2]. rewrite H1, IH by exact H2. reflexivity.
Qed.

Lemma parseInt10_of_N_to_jsstr (n : N) : parseInt10 (N_to_jsstr n) = Some (Z.of_N n).
Proof.
  unfold N_to_jsstr.
  assert (Hs : NilZero.string_of_uint (N.to_uint n) = NilEmpty.string_of_uint (N.to_uint n)).
  { unfold NilZero.string_of_uint. pose proof (N_to_uint_nonnil n).
    destruct (N.to_uint n); [contradiction|reflexivity..]. }
  rewrite Hs. pose proof (N_to_uint_nonnil n) as Hnn.
  pose proof (uint_digits_all (N.to_uint n)) as Hall.
  pose proof (uint_digits_of_uint (N.to_uint n)) as Hval.
  rewrite DecimalN.Unsigned.of_to in Hval.
  destruct (lit (NilEmpty.string_of_uint (N.to_uint n))) as [|c t] eqn:E.
  - destruct (N.to_uint n); [contradiction|discriminate..].
  - unfold parseInt10. cbn [forallb] in Hall. apply andb_prop in Hall as [Hc Ht].
    assert (Hd : (c = 48 \/ c = 49 \/ c = 50 \/ c = 51 \/ c = 52 \/ c = 53 \/ c = 54 \/
                  c = 55 \/ c = 56 \/ c = 57)%N).
    { unfold is_digit in Hc. apply andb_prop in Hc as [H1 H2].
      apply N.leb_le in H1. apply N.leb_le in H2. lia. }
    assert (Hsp : is_space c = false /\ N.eqb c (N_of_ascii "-") = false /\
                  N.eqb c (N_of_ascii "+") = false)
      by (repeat destruct Hd as [Hd|Hd]; subst c; repeat split).
    destruct Hsp as (Hsp & Hm & Hp).
    cbn [drop_while]. rewrite Hsp, Hm, Hp.
    rewrite take_while_all by (cbn [forallb]; rewrite Hc; exact Ht).
    unfold parseInt_digits. change (fun acc c0 : N => (10 * acc + (c0 - 48))%N) with digit_step.
    rewrite Hval, Z.mul_1_l. reflexivity.
Qed.


(** X21: "--limit n" with a natural number [n], followed by arguments without
    "--limit", runs the pipeline on the first [n] acts of the list, or on
    all of them when [n] is 0, with [--skip-fetch] exactly when it is among
    the following arguments. *)
Theorem ingest_limit_work_list (net : nat -> jsstr -> Z * net_outcome) (late : nat -> Z)
  (n : N) (rest : list jsstr) :
  ~ In (lit "--limit") rest ->
  ingest_main_args net late (lit "--limit" :: N_to_jsstr n :: rest) =
    fetchAndParseActs net late
      (if (n =? 0)%N then KEY_PHILIPPINE_ACTS else firstn (N.to_nat n) KEY_PHILIPPINE_ACTS)
      (existsb (fun a => jsstr_eqb a (lit "--skip-fetch")) rest).
Proof.
  intro Hn. unfold ingest_main_args.
  assert (Hne : N_to_jsstr n <> []).
  { unfold N_to_jsstr, NilZero.string_of_uint. pose proof (N_to_uint_nonnil n).
    destruct (N.to_uint n); [contradiction|discriminate..]. }
  unfold parseArgs. cbn [parseArgs_loop].
  rewrite jsstr_eqb_refl, (jsstr_eqb_neq _ [] Hne). cbn [andb negb].
  rewrite parseArgs_loop_no_limit by exact Hn. cbn [orb].
  rewrite parseInt10_of_N_to_jsstr. unfold ingest_main, limit_option, limit_of_parse, work_list.
  destruct n as [|p]; [reflexivity|]. cbn [N.eqb Z.eqb Z.of_N].
  unfold js_slice0. cbn [Z.leb Z.compare]. rewrite positive_N_nat, <- positive_nat_Z, Nat2Z.id.
  reflexivity.
Qed.

Lemma ingest_limit_work_list_witness :
  ~ In (lit "--limit") [lit "--skip-fetch"] /\
  ingest_main_args always_503 no_delay (lit "--limit" :: N_to_jsstr 2 :: [lit "--skip-fetch"]) =
    fetchAndParseActs always_503 no_delay
      (if (2 =? 0)%N then KEY_PHILIPPINE_ACTS else firstn (N.to_nat 2) KEY_PHILIPPINE_ACTS)
      (existsb (fun a => jsstr_eqb a (lit "--skip-fetch")) [lit "--skip-fetch"]).
Proof.
  assert (H : ~ In (lit "--limit") [lit "--skip-fetch"]) by (intros [H|[]]; discriminate H).
  split; [exact H | exact (ingest_limit_work_list always_503 no_delay 2 [lit "--skip-fetch"] H)].
Defined.

(** ** The dates of the index page *)
















